(** * Insider-trade ingestion pipeline: extraction and stream handling

    A shallow embedding of [app/internals/utils.py], [app/internals/formatters.py]
    and [stream.py], and the properties of the trade extractor, the
    officer/trade filter and the stream connection manager.

    Conventions of the embedding:
    - a JSON object read by the code is a record whose fields are the keys the
      code reads; every field is an [option], [None] meaning that the key is
      missing.  [d[k]] is [getitem], which raises [KeyError]; [d.get(k, v)] is
      [default v];
    - JSON numbers are exact rationals ([Qc]); Python's binary floating point
      rounding error is not modelled;
    - a Python [dict] is an association list kept in insertion order, because
      the order of [.items()] decides the order of the emitted records and of
      the running totals;
    - a Python exception is the [Raise] branch of the [result] monad. *)

From Stdlib Require Import QArith Qcanon Qround Qabs Lqa.
From stdpp Require Import numbers strings base option list.

Local Open Scope string_scope.
Local Open Scope list_scope.
Local Open Scope Qc_scope.

(** ** Exceptions *)

Inductive exn : Type :=
  | KeyError (key : string)
  | IndexError
  | ZeroDivisionError
  | ExternalError (msg : string).

Inductive result (A : Type) : Type :=
  | Ok (a : A)
  | Raise (e : exn).

Arguments Ok {A} a.
Arguments Raise {A} e.

Global Instance result_ret : MRet result := λ A a, Ok a.
Global Instance result_bind : MBind result := λ A B f m,
  match m with
  | Ok a => f a
  | Raise e => Raise e
  end.

Definition is_ok {A} (m : result A) : bool :=
  match m with Ok _ => true | Raise _ => false end.

(** [d[k]] on an object whose key [k] may be missing. *)
Definition getitem {A} (key : string) (field : option A) : result A :=
  match field with
  | Some a => Ok a
  | None => Raise (KeyError key)
  end.

(** [l[0]] *)
Definition first_item {A} (l : list A) : result A :=
  match l with
  | x :: _ => Ok x
  | [] => Raise IndexError
  end.

(** A [for] loop whose body may raise, threading the variables it assigns. *)
Fixpoint for_each {A S} (l : list A) (body : S → A → result S) (s : S) : result S :=
  match l with
  | [] => Ok s
  | x :: l' => s' ← body s x; for_each l' body s'
  end.

(** ** Python dictionaries, in insertion order *)

Definition dict (K V : Type) : Type := list (K * V).

Section Dict.
Context {K V : Type} `{EqDecision K}.

(** [k in d] *)
Fixpoint dict_contains (k : K) (d : dict K V) : bool :=
  match d with
  | [] => false
  | (k', _) :: d' => if decide (k = k') then true else dict_contains k d'
  end.

(** [d[k] = v]: replaces in place, or appends a new last entry. *)
Fixpoint dict_set (k : K) (v : V) (d : dict K V) : dict K V :=
  match d with
  | [] => [(k, v)]
  | (k', v') :: d' =>
      if decide (k = k') then (k', v) :: d' else (k', v') :: dict_set k v d'
  end.

(** In-place mutation of the value stored at [k], as [d[k].append(x)] does. *)
Fixpoint dict_alter (f : V → V) (k : K) (d : dict K V) : dict K V :=
  match d with
  | [] => []
  | (k', v') :: d' =>
      if decide (k = k') then (k', f v') :: d' else (k', v') :: dict_alter f k d'
  end.
End Dict.

(** The statements [if k not in d: d[k] = []] and [d[k].append(x)], which
    [utils.py] runs at lines 105-108 and again at lines 174-179. *)
Definition dict_group_append {K V} `{EqDecision K} (k : K) (x : V)
    (d : dict K (list V)) : dict K (list V) :=
  let d := if dict_contains k d then d else dict_set k [] d in
  dict_alter (λ l, l ++ [x]) k d.

(** ** Numbers *)

Definition Qc_of_int (z : Z) : Qc := Q2Qc (inject_Z z).

(** Python's [sum]: starts from 0 and adds from the left. *)
Definition py_sum (l : list Qc) : Qc := fold_left Qcplus l 0.

(** Python's [a / b]. *)
Definition truediv (a b : Qc) : result Qc :=
  if bool_decide (b = 0) then Raise ZeroDivisionError else Ok (a / b).

(** Nearest integer, ties to the even one, as Python 3 rounds. *)
Definition round_half_even (y : Q) : Z :=
  let f := Qfloor y in
  match Qcompare (y - inject_Z f) (1 # 2) with
  | Lt => f
  | Gt => (f + 1)%Z
  | Eq => if Z.even f then f else (f + 1)%Z
  end.

(** Python's [round(x, ndigits)]. *)
Definition py_round (x : Qc) (ndigits : nat) : Qc :=
  let scale := inject_Z (10 ^ Z.of_nat ndigits) in
  Q2Qc (inject_Z (round_half_even (x * scale)%Q) / scale)%Q.

(** ** The filing document (JSON of the filing detail provider) *)

Record amounts : Type := {
  am_shares : option Qc;
  am_pricePerShare : option Qc
}.

Record ownership_nature : Type := {
  on_directOrIndirectOwnership : option string;
  on_natureOfOwnership : option string
}.

Record post_transaction_amounts : Type := {
  pta_sharesOwnedFollowingTransaction : option Qc
}.

Record coding : Type := {
  cd_code : option string
}.

Record transaction : Type := {
  tx_coding : option coding;
  tx_amounts : option amounts;
  tx_ownershipNature : option ownership_nature;
  tx_postTransactionAmounts : option post_transaction_amounts
}.

Record holding : Type := {
  hd_postTransactionAmounts : option post_transaction_amounts
}.

Record non_derivative_table : Type := {
  ndt_transactions : option (list transaction);
  ndt_holdings : option (list holding)
}.

Record issuer : Type := {
  is_tradingSymbol : option string;
  is_name : option string;
  is_cik : option string
}.

Record relationship : Type := {
  rel_isOfficer : option bool;
  rel_officerTitle : option string
}.

Record reporting_owner : Type := {
  ro_name : option string;
  ro_relationship : option relationship
}.

Record insider_trade : Type := {
  it_id : option string;
  it_accessionNo : option string;
  it_periodOfReport : option string;
  it_filedAt : option string;
  it_link : option string;
  it_issuer : option issuer;
  it_reportingOwner : option reporting_owner;
  it_nonDerivativeTable : option non_derivative_table
}.

(** ** The normalized trade (one dictionary of [results]) *)

Record normalized_trade : Type := {
  filling : string;
  ticker : string;
  cik : string;
  q : string;
  sector : string;
  market_cap : string;
  accessionNo : string;
  periodOfReport : string;
  transaction_type : string;
  ceo_name : string;
  company_name : string;
  total_shares : Qc;
  share_price : Qc;
  disclosed_date : string;
  total_amount_spent : Qc;
  total_shares_after_transaction : Qc;
  link : option string;
  change_in_shares_percentage : Qc;
  one_week_return : option Qc;
  one_month_return : option Qc;
  six_months_return : option Qc
}.

Global Instance exn_eq_dec : EqDecision exn.
Proof. solve_decision. Defined.
Global Instance result_eq_dec {A} `{EqDecision A} : EqDecision (result A).
Proof. solve_decision. Defined.
Global Instance post_transaction_amounts_eq_dec : EqDecision post_transaction_amounts.
Proof. solve_decision. Defined.
Global Instance normalized_trade_eq_dec : EqDecision normalized_trade.
Proof. solve_decision. Defined.

(** ** [app/internals/formatters.py] *)

Section Extractor.
(** The two tables of [app/internals/constants.py], taken as parameters:
    each maps a category to the tickers it holds. *)
Context (sectors_with_ticker market_cap_with_ticker : dict string (list string)).

Fixpoint first_key_holding (ticker : string) (items : dict string (list string)) : string :=
  match items with
  | [] => "N/A"
  | (key, value) :: items' =>
      if bool_decide (ticker ∈ value) then key else first_key_holding ticker items'
  end.

Definition get_sector (ticker : string) : string :=
  first_key_holding ticker sectors_with_ticker.

Definition get_market_cap (ticker : string) : string :=
  first_key_holding ticker market_cap_with_ticker.

(** ** [app/internals/utils.py] *)

Definition extract_last_item (group : list post_transaction_amounts) : Qc :=
  match last group with
  | Some item => default 0 (pta_sharesOwnedFollowingTransaction item)
  | None => 0
  end.

(** [transaction['coding']['code']] *)
Definition coding_code_of (transaction : transaction) : result string :=
  cd ← getitem "coding" (tx_coding transaction);
  getitem "code" (cd_code cd).

Definition group_transaction_by_coding (transactions : list transaction)
    : result (dict string (list transaction)) :=
  for_each transactions (λ combined_transactions transaction,
    coding_code ← coding_code_of transaction;
    Ok (dict_group_append coding_code transaction combined_transactions)) [].

Definition get_all_codings (transactions : list transaction) : result (list string) :=
  for_each transactions (λ codings transaction,
    c ← coding_code_of transaction;
    Ok (codings ++ [c])) [].

(** [grouped_transactions = {'D': [], 'indirect': {}}] *)
Record grouped : Type := {
  gr_D : list post_transaction_amounts;
  gr_indirect : dict (option string) (list post_transaction_amounts)
}.

(** The variables of [extract_insider_trades_info_single] that the loop over
    the coding groups assigns. *)
Record locals : Type := {
  lc_total_shares : Qc;
  lc_total_amount_spent : Qc;
  lc_results : list normalized_trade
}.

(** Body of [for transaction in transactions] (lines 161-181). *)
Definition transaction_body (st : Qc * Qc * grouped) (transaction : transaction)
    : result (Qc * Qc * grouped) :=
  let '(total_shares, total_amount_spent, grouped_transactions) := st in
  am ← getitem "amounts" (tx_amounts transaction);
  sh ← getitem "shares" (am_shares am);
  let total_shares := total_shares + sh in
  let total_amount_spent :=
    total_amount_spent + sh * default 0 (am_pricePerShare am) in
  own ← getitem "ownershipNature" (tx_ownershipNature transaction);
  ownership_type ← getitem "directOrIndirectOwnership" (on_directOrIndirectOwnership own);
  let nature_of_ownership := on_natureOfOwnership own in
  post_transaction_amounts ← getitem "postTransactionAmounts"
                               (tx_postTransactionAmounts transaction);
  if bool_decide (ownership_type = "I") then
    Ok (total_shares, total_amount_spent,
        {| gr_D := gr_D grouped_transactions;
           gr_indirect := dict_group_append nature_of_ownership post_transaction_amounts
                            (gr_indirect grouped_transactions) |})
  else
    Ok (total_shares, total_amount_spent,
        {| gr_D := gr_D grouped_transactions ++ [post_transaction_amounts];
           gr_indirect := gr_indirect grouped_transactions |}).

(** Lines 195-199: the standalone holdings are added when the key holds a
    non-empty list. *)
Definition add_holdings (holdings : option (list holding)) (total : Qc) : Qc :=
  match holdings with
  | None | Some [] => total
  | Some l =>
      fold_left (λ total x,
        match hd_postTransactionAmounts x with
        | Some pta =>
            match pta_sharesOwnedFollowingTransaction pta with
            | Some v => total + v
            | None => total
            end
        | None => total
        end) l total
  end.

(** Body of the loop over [group_transaction_by_coding(...).items()]
    (lines 157-227). *)
Definition group_body (insider_trade : insider_trade) (ticker ceo_name company_name : string)
    (ndt : non_derivative_table) (all_transactions : list transaction)
    (st : locals) (item : string * list transaction) : result locals :=
  let '(code, transactions) := item in
  if bool_decide (code ∈ ["P"; "S"]) then
    '(total_shares, total_amount_spent, grouped_transactions) ←
      for_each transactions transaction_body
        (lc_total_shares st, lc_total_amount_spent st, {| gr_D := []; gr_indirect := [] |});
    let last_items_d := extract_last_item (gr_D grouped_transactions) in
    let last_items_indirect :=
      (λ kv : option string * list post_transaction_amounts,
         (kv.1, extract_last_item kv.2)) <$> gr_indirect grouped_transactions in
    let last_items_combined := [last_items_d] ++ (snd <$> last_items_indirect) in
    let total_shares_after_purchase := py_sum last_items_combined in
    disclosed_date ← getitem "filedAt" (it_filedAt insider_trade);
    first ← first_item all_transactions;
    am0 ← getitem "amounts" (tx_amounts first);
    let share_price := default 0 (am_pricePerShare am0) in
    let total_shares_after_purchase :=
      add_holdings (ndt_holdings ndt) total_shares_after_purchase in
    change_in_shares_percentage ←
      (if bool_decide (total_shares_after_purchase ≠ 0)
       then d ← truediv total_shares total_shares_after_purchase; Ok (d * Qc_of_int 100)
       else Ok 0);
    filling_ ← getitem "id" (it_id insider_trade);
    iss ← getitem "issuer" (it_issuer insider_trade);
    cik_ ← getitem "cik" (is_cik iss);
    accessionNo_ ← getitem "accessionNo" (it_accessionNo insider_trade);
    periodOfReport_ ← getitem "periodOfReport" (it_periodOfReport insider_trade);
    Ok {| lc_total_shares := total_shares;
          lc_total_amount_spent := total_amount_spent;
          lc_results := lc_results st ++ [
            {| filling := filling_;
               ticker := ticker;
               cik := cik_;
               q := ceo_name +:+ " - " +:+ company_name;
               sector := get_sector ticker;
               market_cap := get_market_cap ticker;
               accessionNo := accessionNo_;
               periodOfReport := periodOfReport_;
               transaction_type := code;
               ceo_name := ceo_name;
               company_name := company_name;
               total_shares := total_shares;
               share_price := share_price;
               disclosed_date := disclosed_date;
               total_amount_spent := total_amount_spent;
               total_shares_after_transaction := total_shares_after_purchase;
               link := it_link insider_trade;
               change_in_shares_percentage := py_round change_in_shares_percentage 4;
               one_week_return := None;
               one_month_return := None;
               six_months_return := None |} ] |}
  else Ok st.

Definition extract_insider_trades_info_single (insider_trade : insider_trade)
    : result (list normalized_trade) :=
  iss ← getitem "issuer" (it_issuer insider_trade);
  ticker ← getitem "tradingSymbol" (is_tradingSymbol iss);
  ro ← getitem "reportingOwner" (it_reportingOwner insider_trade);
  ceo_name ← getitem "name" (ro_name ro);
  company_name ← getitem "name" (is_name iss);
  ndt ← getitem "nonDerivativeTable" (it_nonDerivativeTable insider_trade);
  all_transactions ← getitem "transactions" (ndt_transactions ndt);
  groups ← group_transaction_by_coding all_transactions;
  st ← for_each groups
         (group_body insider_trade ticker ceo_name company_name ndt all_transactions)
         {| lc_total_shares := 0; lc_total_amount_spent := 0; lc_results := [] |};
  Ok (lc_results st).
End Extractor.

(** ** [stream.py] *)

(** One element of a stream message. *)
Record filing : Type := {
  fl_formType : option string;
  fl_ticker : option string;
  fl_companyName : option string;
  fl_accessionNo : option string;
  fl_linkToFilingDetails : option string
}.

(** The answer of [insiderTradingApi.get_data]. *)
Record api_response : Type := {
  resp_total_value : Z;
  resp_transactions : list insider_trade
}.

(** What a task does that the outside can see.  The [print] calls are left
    out, except the last one of [main]. *)
Inductive event : Type :=
  | Sleep (seconds : nat)
  | GetData (accessionNo : string)
  | SignalNotification (formated_data : list normalized_trade)
  | InsertData (formated_data : list normalized_trade)
  | Connect
  | StartPing
  | Recv
  | CancelPing
  | Stopped.

Global Instance event_eq_dec : EqDecision event.
Proof. solve_decision. Defined.

(** A coroutine: the events it performs, in order, and how it ends. *)
Definition io (A : Type) : Type := list event * result A.

Global Instance io_ret : MRet io := λ A a, ([], Ok a).
Global Instance io_bind : MBind io := λ A B f m,
  match m.2 with
  | Ok a => (m.1 ++ (f a).1, (f a).2)
  | Raise e => (m.1, Raise e)
  end.

Definition emit (ev : event) : io unit := ([ev], Ok tt).

(** A pure computation that may raise, run inside a coroutine. *)
Definition lift {A} (r : result A) : io A := ([], r).

(** [try: body except Exception: print(...)] *)
Definition try_except (body : io unit) : io unit := (body.1, Ok tt).

(** [s.find(sub)] *)
Definition str_find (s sub : string) : Z :=
  match String.index 0 sub s with
  | Some n => Z.of_nat n
  | None => -1
  end.

Definition set_link (link : string) (d : normalized_trade) : normalized_trade :=
  {| filling := filling d;
     ticker := ticker d;
     cik := cik d;
     q := q d;
     sector := sector d;
     market_cap := market_cap d;
     accessionNo := accessionNo d;
     periodOfReport := periodOfReport d;
     transaction_type := transaction_type d;
     ceo_name := ceo_name d;
     company_name := company_name d;
     total_shares := total_shares d;
     share_price := share_price d;
     disclosed_date := disclosed_date d;
     total_amount_spent := total_amount_spent d;
     total_shares_after_transaction := total_shares_after_transaction d;
     link := Some link;
     change_in_shares_percentage := change_in_shares_percentage d;
     one_week_return := one_week_return d;
     one_month_return := one_month_return d;
     six_months_return := six_months_return d |}.

(** How one iteration of [while retry_counter < max_retries] meets the
    outside: [websockets.connect] raises, or it connects and the stream
    delivers some messages (each one a decoded list of filings) before
    [recv] or [json.loads] raises.  [cancelled_escapes] says whether
    [await ping_task], after [ping_task.cancel()], raises something that
    [except Exception] does not catch. *)
Inductive connect_outcome : Type :=
  | ConnectFails
  | Session (messages : list (list filing)).

Record attempt : Type := {
  at_connect : connect_outcome;
  at_cancelled_escapes : bool
}.

(** The variables of [main]; [ping_task] is [true] when the variable holds a
    task and [false] when it is [None]. *)
Record manager : Type := {
  retry_counter : nat;
  ping_task : bool
}.

(** How one iteration of the loop of [main] ends: the loop goes on, or an
    exception that is not an [Exception] leaves [main]. *)
Inductive continuation : Type :=
  | Continue (m : manager)
  | Escaped.

Section Stream.
(** The tables and the officer titles of [app/internals/constants.py], and
    the external services, taken as parameters. *)
Context (sectors_with_ticker market_cap_with_ticker : dict string (list string)).
Context (officer_titles : list string).
Context (get_data : string → result api_response).
Context (signal_notification insert_data_into_table : list normalized_trade → result unit).

(** Lines 38-48 of [fetch_insider_trades]: is the filing a purchase or a sale
    by a chief executive? *)
Definition officer_trade_filter (data : insider_trade) : result bool :=
  let is_officer :=
    default false
      (rel ← it_reportingOwner data ≫= ro_relationship; rel_isOfficer rel) in
  if is_officer then
    let officer_title :=
      default ""
        (rel ← it_reportingOwner data ≫= ro_relationship; rel_officerTitle rel) in
    ndt ← getitem "nonDerivativeTable" (it_nonDerivativeTable data);
    transactions ← getitem "transactions" (ndt_transactions ndt);
    codings ← get_all_codings transactions;
    let is_sale_or_purchase :=
      bool_decide ("P" ∈ codings) || bool_decide ("S" ∈ codings) in
    Ok ((bool_decide (str_find officer_title "CEO" ≠ (-1)%Z)
         || bool_decide (officer_title ∈ officer_titles))
        && is_sale_or_purchase)
  else Ok false.

Definition fetch_insider_trades (accessionNo ticker link : string) : io unit :=
  _ ← emit (Sleep 15);
  _ ← emit (GetData accessionNo);
  insider_trades ← lift (get_data accessionNo);
  if bool_decide (resp_total_value insider_trades ≠ 0%Z) then
    data ← lift (first_item (resp_transactions insider_trades));
    accepted ← lift (officer_trade_filter data);
    if accepted : bool then
      formated_data ← lift (extract_insider_trades_info_single
                              sectors_with_ticker market_cap_with_ticker data);
      let formated_data := set_link link <$> formated_data in
      _ ← try_except (_ ← emit (SignalNotification formated_data);
                      lift (signal_notification formated_data));
      try_except (_ ← emit (InsertData formated_data);
                  lift (insert_data_into_table formated_data))
    else mret tt
  else mret tt.

Definition on_filings (filing : filing) : io unit :=
  try_except (
    let form_type := default "" (fl_formType filing) in
    let ticker := default "" (fl_ticker filing) in
    let accessionNo := default "" (fl_accessionNo filing) in
    let link := default "" (fl_linkToFilingDetails filing) in
    if bool_decide (form_type ∈ ["4"; "4/A"]) && bool_decide (accessionNo ≠ "") then
      fetch_insider_trades accessionNo ticker link
    else mret tt).

(** [for f in filings: await on_filings(f)] *)
Fixpoint on_each_filing (filings : list filing) : io unit :=
  match filings with
  | [] => mret tt
  | f :: filings' => _ ← on_filings f; on_each_filing filings'
  end.

(** The loop [while True] of [main] (lines 150-154), run on the messages the
    stream delivers; the [recv] (or [json.loads]) after the last of them
    raises. *)
Fixpoint receive_loop (messages : list (list filing)) : io unit :=
  match messages with
  | [] => _ ← emit Recv; lift (Raise (ExternalError "connection closed"))
  | filings :: messages' =>
      _ ← emit Recv; _ ← on_each_filing filings; receive_loop messages'
  end.

Definition max_retries : nat := 10.

(** The handler [except Exception as e] of [main] (lines 156-172). *)
Definition handle_exception (m : manager) (cancelled_escapes : bool)
    : list event * continuation :=
  let retry_counter := S (retry_counter m) in
  if ping_task m then
    if cancelled_escapes then ([CancelPing], Escaped)
    else ([CancelPing; Sleep 5],
          Continue {| retry_counter := retry_counter; ping_task := false |})
  else ([Sleep 5], Continue {| retry_counter := retry_counter; ping_task := ping_task m |}).

(** Lines 146-148: the connection is open. *)
Definition connected (m : manager) : manager :=
  {| retry_counter := 0; ping_task := true |}.

(** The [try] block of [main] (lines 143-154) followed by its handler. *)
Definition attempt_connection (m : manager) (a : attempt) : list event * continuation :=
  match at_connect a with
  | ConnectFails =>
      let '(evs, k) := handle_exception m (at_cancelled_escapes a) in
      (Connect :: evs, k)
  | Session messages =>
      let m := connected m in
      let '(evs, k) := handle_exception m (at_cancelled_escapes a) in
      (Connect :: StartPing :: (receive_loop messages).1 ++ evs, k)
  end.

(** [while retry_counter < max_retries] and what follows it, on the attempts
    the outside allows; when these are used up nothing more is observed. *)
Fixpoint main_loop (script : list attempt) (m : manager) : list event :=
  if bool_decide (retry_counter m < max_retries)%nat then
    match script with
    | [] => []
    | a :: script' =>
        let '(evs, k) := attempt_connection m a in
        evs ++ match k with
               | Continue m' => main_loop script' m'
               | Escaped => []
               end
    end
  else [Stopped].

Definition main (script : list attempt) : list event :=
  main_loop script {| retry_counter := 0; ping_task := false |}.
End Stream.

(** * Vocabulary of the specification *)

(** ** Fields of a transaction, read without raising *)

Definition code_of (t : transaction) : option string := tx_coding t ≫= cd_code.

Definition shares_of (t : transaction) : option Qc := tx_amounts t ≫= am_shares.

(** [amounts.pricePerShare], a missing price being 0. *)
Definition price_of (t : transaction) : Qc :=
  default 0 (tx_amounts t ≫= am_pricePerShare).

Definition ownership_of (t : transaction) : option string :=
  tx_ownershipNature t ≫= on_directOrIndirectOwnership.

Definition nature_of (t : transaction) : option string :=
  tx_ownershipNature t ≫= on_natureOfOwnership.

Definition shares_owned_following (t : transaction) : Qc :=
  default 0 (tx_postTransactionAmounts t ≫= pta_sharesOwnedFollowingTransaction).

Definition holding_shares (h : holding) : option Qc :=
  hd_postTransactionAmounts h ≫= pta_sharesOwnedFollowingTransaction.

(** ** Coding groups *)

(** The codes of open-market purchases and sales. *)
Definition qualifying (code : string) : bool := bool_decide (code ∈ ["P"; "S"]).

Definition tx_qualifying (t : transaction) : bool :=
  match code_of t with
  | Some c => qualifying c
  | None => false
  end.

(** The transactions of a filing that carry the code [c], in filing order. *)
Definition group_of (c : string) (transactions : list transaction) : list transaction :=
  filter (λ t, code_of t = Some c) transactions.

Section FirstOccurrences.
Context {K V : Type} `{EqDecision K}.

(** The keys of a list, each once, in the order of their first occurrence. *)
Definition add_key (keys : list K) (k : K) : list K :=
  if bool_decide (k ∈ keys) then keys else keys ++ [k].

Definition first_occurrences (l : list K) : list K := fold_left add_key l [].

(** The dictionary that maps every key of [l] to the values paired with it,
    in the order of [l]. *)
Definition grouping (l : list (K * V)) : dict K (list V) :=
  (λ k, (k, snd <$> filter (λ kv, kv.1 = k) l)) <$> first_occurrences (l.*1).
End FirstOccurrences.

(** ** What the extractor needs to find in a filing *)

Definition is_some {A} (o : option A) : bool :=
  match o with Some _ => true | None => false end.

(** The keys read with [[...]] in a transaction of a qualifying group. *)
Definition tx_complete (t : transaction) : bool :=
  is_some (shares_of t) && is_some (ownership_of t)
  && is_some (tx_postTransactionAmounts t).

(** The keys read with [[...]] when a record is built. *)
Definition record_fields_present (doc : insider_trade) (iss : issuer)
    (transactions : list transaction) : bool :=
  is_some (it_filedAt doc)
  && match transactions with
     | first :: _ => is_some (tx_amounts first)
     | [] => false
     end
  && is_some (it_id doc) && is_some (is_cik iss)
  && is_some (it_accessionNo doc) && is_some (it_periodOfReport doc).

Definition extract_requirements (doc : insider_trade) : bool :=
  match it_issuer doc, it_reportingOwner doc, it_nonDerivativeTable doc with
  | Some iss, Some ro, Some ndt =>
      match ndt_transactions ndt with
      | Some transactions =>
          is_some (is_tradingSymbol iss) && is_some (ro_name ro) && is_some (is_name iss)
          && forallb (λ t, is_some (code_of t)) transactions
          && forallb (λ t, implb (tx_qualifying t) (tx_complete t)) transactions
          && implb (existsb tx_qualifying transactions)
                   (record_fields_present doc iss transactions)
      | None => false
      end
  | _, _, _ => false
  end.


(** The transactions table of a filing, empty when it is missing. *)
Definition transactions_of (doc : insider_trade) : list transaction :=
  default [] (it_nonDerivativeTable doc ≫= ndt_transactions).

Definition holdings_of (doc : insider_trade) : option (list holding) :=
  it_nonDerivativeTable doc ≫= ndt_holdings.

(** ** Shares owned after the transactions of a group *)

(** [sharesOwnedFollowingTransaction] of the last transaction of a list. *)
Definition last_shares (l : list transaction) : Qc :=
  match last l with
  | Some t => shares_owned_following t
  | None => 0
  end.

Definition is_direct (t : transaction) : Prop := ownership_of t = Some "D".
Definition is_indirect (t : transaction) : Prop := ownership_of t = Some "I".

Global Instance is_direct_dec t : Decision (is_direct t).
Proof. unfold is_direct. apply _. Defined.
Global Instance is_indirect_dec t : Decision (is_indirect t).
Proof. unfold is_indirect. apply _. Defined.

Definition direct_contribution (group : list transaction) : Qc :=
  last_shares (filter is_direct group).

(** One term for each distinct [natureOfOwnership] of the indirect
    transactions: the shares owned after the last transaction of that nature. *)
Definition indirect_contribution (group : list transaction) : Qc :=
  let indirect := filter is_indirect group in
  py_sum ((λ nature, last_shares (filter (λ t, nature_of t = nature) indirect))
            <$> first_occurrences (nature_of <$> indirect)).

Definition holdings_contribution (holdings : option (list holding)) : Qc :=
  py_sum (omap holding_shares (default [] holdings)).

(** ** The receive loop as a schedule *)

(** The filing classifier: the condition of line 109. *)
Definition is_candidate (f : filing) : bool :=
  bool_decide (default "" (fl_formType f) ∈ ["4"; "4/A"])
  && bool_decide (default "" (fl_accessionNo f) ≠ "").

(** For every [Recv] of a trace, the time the task has slept since its
    previous [Recv] (since the start for the first one). *)
Fixpoint delays_before_recv (slept : nat) (trace : list event) : list nat :=
  match trace with
  | [] => []
  | Recv :: trace' => slept :: delays_before_recv 0 trace'
  | Sleep n :: trace' => delays_before_recv (slept + n) trace'
  | _ :: trace' => delays_before_recv slept trace'
  end.

(** The events of the pipeline of one filing. *)
Definition pipeline_event (ev : event) : bool :=
  match ev with
  | Sleep n => bool_decide (n = 15%nat)
  | GetData _ | SignalNotification _ | InsertData _ => true
  | _ => false
  end.

(** The time a task sleeps along a trace. *)
Fixpoint slept (trace : list event) : nat :=
  match trace with
  | [] => 0
  | Sleep n :: trace' => n + slept trace'
  | _ :: trace' => slept trace'
  end.

(** The property that no settle delay of a filing pipeline is served by the
    receiving task itself. *)
Definition receipt_never_delayed (trace : list event) : bool :=
  forallb (λ d, bool_decide (d = 0%nat)) (delays_before_recv 0 trace).

(** ** Auxiliary lists of pairs *)

(** Every coded transaction, paired with its code. *)
Definition coded_pairs (transactions : list transaction) : list (string * transaction) :=
  omap (λ t, (λ c, (c, t)) <$> code_of t) transactions.

(** The post-transaction amounts of the indirect transactions, paired with
    the nature of the ownership. *)
Definition indirect_pairs (transactions : list transaction)
    : list (option string * post_transaction_amounts) :=
  omap (λ t, (λ p, (nature_of t, p)) <$> tx_postTransactionAmounts t)
       (filter is_indirect transactions).

(** One step of collecting pairs into a dictionary of lists. *)
Definition group_append_step {K V} `{EqDecision K} (d : dict K (list V)) (kv : K * V)
    : dict K (list V) :=
  dict_group_append kv.1 kv.2 d.


(** ** The record of a coding group *)

(** The codes for which a record is emitted, in the order of the records. *)
Definition qualifying_codes (transactions : list transaction) : list string :=
  filter (λ c, qualifying c = true) (first_occurrences (omap code_of transactions)).

(** The dictionary that [group_transaction_by_coding] builds. *)
Definition groups_of (transactions : list transaction) : dict string (list transaction) :=
  (λ c, (c, group_of c transactions)) <$> first_occurrences (omap code_of transactions).

(** The fields of the record [r] that depend only on the filing [doc] and on
    the group of code [c]; the running totals [total_shares] and
    [total_amount_spent] are not among them. *)
Definition record_for (doc : insider_trade) (c : string) (r : normalized_trade) : Prop :=
  let transactions := transactions_of doc in
  let group := group_of c transactions in
  transaction_type r = c
  ∧ forallb tx_complete group = true
  ∧ (∃ iss, it_issuer doc = Some iss ∧ record_fields_present doc iss transactions = true)
  ∧ total_shares_after_transaction r
    = last_shares (filter (λ t, ¬ is_indirect t) group) + indirect_contribution group
      + holdings_contribution (holdings_of doc)
  ∧ share_price r = match transactions with first :: _ => price_of first | [] => 0 end
  ∧ change_in_shares_percentage r
    = py_round (if decide (total_shares_after_transaction r = 0) then 0
                else total_shares r / total_shares_after_transaction r * Qc_of_int 100) 4.

(** ** Totals of a coding group *)

(** The sum of [amounts.shares] over the transactions of code [c]. *)
Definition group_shares (c : string) (transactions : list transaction) : Qc :=
  py_sum ((λ t, default 0 (shares_of t)) <$> group_of c transactions).

(** The sum of [amounts.shares * amounts.pricePerShare] over them. *)
Definition group_amount_spent (c : string) (transactions : list transaction) : Qc :=
  py_sum ((λ t, default 0 (shares_of t) * price_of t) <$> group_of c transactions).

(** The successive values of a variable that starts at [start] and to which
    the elements of [l] are added one after the other. *)
Fixpoint running_totals (start : Qc) (l : list Qc) : list Qc :=
  match l with
  | [] => []
  | x :: l' => (start + x) :: running_totals (start + x) l'
  end.

(** ** A filing without its optional keys *)



(** * Sample filings *)

Definition sample_transaction (code ownership : string) (nature : option string)
    (shares price after : Z) : transaction :=
  {| tx_coding := Some {| cd_code := Some code |};
     tx_amounts := Some {| am_shares := Some (Qc_of_int shares);
                           am_pricePerShare := Some (Qc_of_int price) |};
     tx_ownershipNature :=
       Some {| on_directOrIndirectOwnership := Some ownership;
               on_natureOfOwnership := nature |};
     tx_postTransactionAmounts :=
       Some {| pta_sharesOwnedFollowingTransaction := Some (Qc_of_int after) |} |}.

Definition sample_filing (transactions : list transaction)
    (holdings : option (list holding)) : insider_trade :=
  {| it_id := Some "f-1";
     it_accessionNo := Some "0001-24-000001";
     it_periodOfReport := Some "2024-01-02";
     it_filedAt := Some "2024-01-03";
     it_link := None;
     it_issuer := Some {| is_tradingSymbol := Some "TSLA";
                          is_name := Some "Tesla, Inc.";
                          is_cik := Some "1318605" |};
     it_reportingOwner :=
       Some {| ro_name := Some "Musk Elon";
               ro_relationship := Some {| rel_isOfficer := Some true;
                                          rel_officerTitle := Some "CEO" |} |};
     it_nonDerivativeTable := Some {| ndt_transactions := Some transactions;
                                      ndt_holdings := holdings |} |}.

Definition sample_record (code : string) (shares price spent after : Z) (change : Q)
    : normalized_trade :=
  {| filling := "f-1";
     ticker := "TSLA";
     cik := "1318605";
     q := "Musk Elon - Tesla, Inc.";
     sector := "Consumer Cyclical";
     market_cap := "Large Cap";
     accessionNo := "0001-24-000001";
     periodOfReport := "2024-01-02";
     transaction_type := code;
     ceo_name := "Musk Elon";
     company_name := "Tesla, Inc.";
     total_shares := Qc_of_int shares;
     share_price := Qc_of_int price;
     disclosed_date := "2024-01-03";
     total_amount_spent := Qc_of_int spent;
     total_shares_after_transaction := Qc_of_int after;
     link := None;
     change_in_shares_percentage := Q2Qc change;
     one_week_return := None;
     one_month_return := None;
     six_months_return := None |}.

Definition sample_sectors : dict string (list string) :=
  [("Technology", ["AAPL"; "MSFT"]); ("Consumer Cyclical", ["TSLA"; "AMZN"])].

Definition sample_market_caps : dict string (list string) :=
  [("Large Cap", ["AAPL"; "TSLA"])].

Definition sample_extract : insider_trade → result (list normalized_trade) :=
  extract_insider_trades_info_single sample_sectors sample_market_caps.

(** One direct purchase of 13037 shares at 767, leaving 34098597 shares. *)
Definition filing_single_purchase : insider_trade :=
  sample_filing [sample_transaction "P" "D" None 13037 767 34098597] None.

(** A purchase of 10 shares at 2, then a sale of 5 shares at 3. *)
Definition filing_purchase_and_sale : insider_trade :=
  sample_filing [sample_transaction "P" "D" None 10 2 100;
                 sample_transaction "S" "D" None 5 3 95] None.

(** A gift and a grant: no purchase, no sale. *)
Definition filing_gift_and_grant : insider_trade :=
  sample_filing [sample_transaction "G" "D" None 10 0 100;
                 sample_transaction "A" "D" None 5 0 105] None.

(** A direct purchase followed by a purchase whose ownership marker is empty. *)
Definition filing_unmarked_ownership : insider_trade :=
  sample_filing [sample_transaction "P" "D" None 10 2 100;
                 sample_transaction "P" "" None 5 3 50] None.

(** Direct and indirect purchases, two natures of indirect ownership, and two
    standalone holdings, one of which carries no amount. *)
Definition filing_direct_and_indirect : insider_trade :=
  sample_filing
    [sample_transaction "P" "D" None 10 2 100;
     sample_transaction "P" "I" (Some "By Trust") 10 2 400;
     sample_transaction "P" "I" (Some "By Spouse") 10 2 7;
     sample_transaction "P" "D" None 10 2 110;
     sample_transaction "P" "I" (Some "By Trust") 10 2 30]
    (Some [ {| hd_postTransactionAmounts :=
                 Some {| pta_sharesOwnedFollowingTransaction := Some (Qc_of_int 1000) |} |};
            {| hd_postTransactionAmounts := None |} ]).





(** A purchase without the optional keys. *)
Definition filing_without_optional_keys : insider_trade :=
  sample_filing
    [ {| tx_coding := Some {| cd_code := Some "P" |};
         tx_amounts := Some {| am_shares := Some (Qc_of_int 10); am_pricePerShare := None |};
         tx_ownershipNature :=
           Some {| on_directOrIndirectOwnership := Some "I"; on_natureOfOwnership := None |};
         tx_postTransactionAmounts :=
           Some {| pta_sharesOwnedFollowingTransaction := None |} |} ] None.

Definition sample_officer_titles : list string :=
  ["Chief Executive Officer"; "President and CEO"].

(** The records expected from the sample filings. *)
Definition record_single_purchase : normalized_trade :=
  sample_record "P" 13037 767 9999379 34098597 (382 # 10000).

Definition record_unmarked_ownership : normalized_trade :=
  sample_record "P" 15 2 35 50 (30 # 1).


Definition record_of_purchase : normalized_trade :=
  sample_record "P" 10 2 20 100 (10 # 1).

Definition record_of_sale : normalized_trade :=
  sample_record "S" 15 2 35 95 (157895 # 10000).

Definition record_without_optional_keys : normalized_trade :=
  sample_record "P" 10 0 0 0 (0 # 1).

(** A stream event announcing the sample filing, and services that answer. *)
Definition sample_event : filing :=
  {| fl_formType := Some "4";
     fl_ticker := Some "TSLA";
     fl_companyName := Some "Tesla, Inc.";
     fl_accessionNo := Some "0001-24-000001";
     fl_linkToFilingDetails := Some "https://www.sec.gov/f-1" |}.

Definition sample_get_data (accessionNo : string) : result api_response :=
  Ok {| resp_total_value := 1; resp_transactions := [filing_single_purchase] |}.

Definition sample_service (formated_data : list normalized_trade) : result unit := Ok tt.

Definition sample_receive_loop (messages : list (list filing)) : io unit :=
  receive_loop sample_sectors sample_market_caps sample_officer_titles sample_get_data
    sample_service sample_service messages.

Definition sample_main (script : list attempt) : list event :=
  main sample_sectors sample_market_caps sample_officer_titles sample_get_data
    sample_service sample_service script.

Definition connect_fails : attempt :=
  {| at_connect := ConnectFails; at_cancelled_escapes := false |}.

(** * Further functions of the pipeline *)

(** ** [app/internals/utils.py]: returns, the most common code, batches *)

(** [d.get(k)] *)
Fixpoint dict_lookup {K V} `{EqDecision K} (k : K) (d : dict K V) : option V :=
  match d with
  | [] => None
  | (k', v) :: d' => if decide (k = k') then Some v else dict_lookup k d'
  end.


Section Calendar.
(** [calendar.is_working_day], on days counted from a fixed one. *)
Context (is_working_day : Z → bool).

(** The helper [get_next_business_day] of [calculate_returns]; [fuel] bounds
    the number of times the loop tests its condition. *)
Fixpoint get_next_business_day (fuel : nat) (date : Z) : option Z :=
  match fuel with
  | O => None
  | S fuel' =>
      if negb (is_working_day date) then get_next_business_day fuel' (date + 1)
      else Some date
  end.
End Calendar.

(** [Counter(codings)]: one count for each element, in the order in which
    the elements first occur. *)
Definition counter_add (counts : dict string nat) (elem : string) : dict string nat :=
  dict_set elem (default 0%nat (dict_lookup elem counts) + 1)%nat counts.

Definition Counter (elems : list string) : dict string nat :=
  fold_left counter_add elems [].

(** [max(items, key=itemgetter(1))]: the first item with the largest count. *)
Fixpoint max_by_count (best : string * nat) (items : list (string * nat)) : string * nat :=
  match items with
  | [] => best
  | item :: items' =>
      max_by_count (if bool_decide (best.2 < item.2)%nat then item else best) items'
  end.

(** [counts.most_common(1)] *)
Definition most_common_1 (counts : dict string nat) : list (string * nat) :=
  match counts with
  | [] => []
  | item :: items => [max_by_count item items]
  end.

Definition get_transaction_coding (transactions : list transaction)
    : result (option string) :=
  codings ← get_all_codings transactions;
  let counts := Counter codings in
  let most_common := most_common_1 counts in
  match most_common with
  | item :: _ => Ok (Some item.1)
  | [] => Ok None
  end.

Section Parallel.
Context (sectors_with_ticker market_cap_with_ticker : dict string (list string)).

(** The futures are read in the order of [data]; one that raised is printed
    and left out. *)
Definition extract_insider_trades_info_parallel (data : list insider_trade)
    : list (list normalized_trade) :=
  let futures :=
    extract_insider_trades_info_single sectors_with_ticker market_cap_with_ticker
      <$> data in
  fold_left (λ result future,
    match future with
    | Ok rs => result ++ [rs]
    | Raise _ => result
    end) futures [].
End Parallel.

(** The number of times [x] occurs in [l]. *)
Definition occurrences {A} `{EqDecision A} (x : A) (l : list A) : nat :=
  length (filter (λ y, y = x) l).

(** ** The fields of a record that identify its filing *)

Section RecordIdentity.
Context (sectors_with_ticker market_cap_with_ticker : dict string (list string)).

(** The record [r] carries the identification of the filing [doc], the
    categories of its ticker, and no return yet. *)
Definition record_identifies (doc : insider_trade) (r : normalized_trade) : Prop :=
  ∃ iss ro,
    it_issuer doc = Some iss ∧ it_reportingOwner doc = Some ro
    ∧ it_id doc = Some (filling r)
    ∧ is_tradingSymbol iss = Some (ticker r)
    ∧ is_cik iss = Some (cik r)
    ∧ it_accessionNo doc = Some (accessionNo r)
    ∧ it_periodOfReport doc = Some (periodOfReport r)
    ∧ it_filedAt doc = Some (disclosed_date r)
    ∧ ro_name ro = Some (ceo_name r)
    ∧ is_name iss = Some (company_name r)
    ∧ q r = ceo_name r +:+ " - " +:+ company_name r
    ∧ sector r = get_sector sectors_with_ticker (ticker r)
    ∧ market_cap r = get_market_cap market_cap_with_ticker (ticker r)
    ∧ link r = it_link doc
    ∧ one_week_return r = None ∧ one_month_return r = None ∧ six_months_return r = None.
End RecordIdentity.

(** ** Samples *)

Global Instance coding_eq_dec : EqDecision coding.
Proof. solve_decision. Defined.
Global Instance amounts_eq_dec : EqDecision amounts.
Proof. solve_decision. Defined.
Global Instance ownership_nature_eq_dec : EqDecision ownership_nature.
Proof. solve_decision. Defined.
Global Instance transaction_eq_dec : EqDecision transaction.
Proof. solve_decision. Defined.

(** A calendar in which the days 5 and 6 of every week are closed. *)
Definition sample_calendar (date : Z) : bool := (date mod 7 <? 5)%Z.

(** Two sales, two purchases and a gift: the sales come first. *)
Definition table_with_tie : list transaction :=
  [sample_transaction "S" "D" None 5 3 95;
   sample_transaction "P" "D" None 10 2 105;
   sample_transaction "G" "D" None 1 0 104;
   sample_transaction "P" "D" None 10 2 114;
   sample_transaction "S" "D" None 4 3 110].

Definition groups_with_tie : dict string (list transaction) :=
  [("S", [sample_transaction "S" "D" None 5 3 95; sample_transaction "S" "D" None 4 3 110]);
   ("P", [sample_transaction "P" "D" None 10 2 105; sample_transaction "P" "D" None 10 2 114]);
   ("G", [sample_transaction "G" "D" None 1 0 104])].

(** ** Vocabulary for the stream client *)

(** [data.get('reportingOwner', {}).get('relationship', {}).get('isOfficer', False)] *)
Definition is_officer_of (data : insider_trade) : bool :=
  default false (rel ← it_reportingOwner data ≫= ro_relationship; rel_isOfficer rel).

(** [data.get('reportingOwner', {}).get('relationship', {}).get('officerTitle', "")] *)
Definition officer_title_of (data : insider_trade) : string :=
  default "" (rel ← it_reportingOwner data ≫= ro_relationship; rel_officerTitle rel).

(** The script holds [n] attempts in a row whose connection fails. *)
Definition consecutive_failures (n : nat) (script : list attempt) : Prop :=
  ∃ pre fails post,
    script = pre ++ fails ++ post ∧ length fails = n
    ∧ Forall (λ a, at_connect a = ConnectFails) fails.

(** The pipeline of one filing on the sample services. *)
Definition sample_on_filings (f : filing) : io unit :=
  on_filings sample_sectors sample_market_caps sample_officer_titles sample_get_data
    sample_service sample_service f.

(** A session without a message, then eleven refused connections. *)
Definition script_session_then_failures : list attempt :=
  {| at_connect := Session []; at_cancelled_escapes := false |} :: replicate 11 connect_fails.

(** ** [app/internals/formatters.py]: the keys of the option tables *)

(** The loop of [get_sector_key] and of [get_market_cap_key]: the key of the
    first entry of the options table that carries the name. *)
Fixpoint first_key_named (name : string) (options : dict Z string) : option Z :=
  match options with
  | [] => None
  | (key, name') :: options' =>
      if bool_decide (name' = name) then Some key else first_key_named name options'
  end.

Section Options.
(** [sector_options] and [market_cap_options] of [app/internals/constants.py]. *)
Context (sector_options market_cap_options : dict Z string).

Definition get_sector_key (sector_name : string) : option Z :=
  first_key_named sector_name sector_options.

Definition get_market_cap_key (market_cap : string) : option Z :=
  first_key_named market_cap market_cap_options.
End Options.

(** The first entry of a table of tickers that lists [ticker] carries [key]. *)
Definition first_listing (ticker key : string) (table : dict string (list string)) : Prop :=
  ∃ pre tickers post,
    table = pre ++ (key, tickers) :: post ∧ ticker ∈ tickers
    ∧ Forall (λ item, ticker ∉ item.2) pre.

(** ** [app/internals/supabase_helper.py]: the rows of the trade tables *)

(** The value of a column. *)
Inductive value : Type :=
  | Null
  | Str (s : string)
  | Num (x : Qc).

Global Instance value_eq_dec : EqDecision value.
Proof. solve_decision. Defined.

Definition value_of_str (o : option string) : value :=
  match o with Some s => Str s | None => Null end.

Definition value_of_num (o : option Qc) : value :=
  match o with Some x => Num x | None => Null end.

(** The truth value of a column in an [if]. *)
Definition truthy (v : value) : bool :=
  match v with
  | Null => false
  | Str s => negb (bool_decide (s = ""))
  | Num x => negb (bool_decide (x = 0))
  end.

(** [del d[k]] on a dictionary that holds [k]. *)
Definition dict_delete {K V} `{EqDecision K} (k : K) (d : dict K V) : dict K V :=
  filter (λ item, item.1 ≠ k) d.

(** [s.lower()] on the letters of ASCII; the codes it is applied to here are
    compared with "p" and "s" only, to which no other character is mapped. *)
Definition lower_ascii (c : Ascii.ascii) : Ascii.ascii :=
  let n := Ascii.nat_of_ascii c in
  if (65 <=? n)%nat && (n <=? 90)%nat then Ascii.ascii_of_nat (n + 32) else c.

Fixpoint lower (s : string) : string :=
  match s with
  | EmptyString => EmptyString
  | String c s' => String (lower_ascii c) (lower s')
  end.

Section TradeTables.
(** [PURCHASE_TABLE] and [SALES_TABLE] of [app/internals/constants.py], and
    [supabase.table(TABLE).insert(row).execute()]. *)
Context (PURCHASE_TABLE SALES_TABLE : string).
Context (execute : string → dict string value → result unit).

Definition get_database_table (trasaction_type : string) : string :=
  if bool_decide (lower trasaction_type = "p") then PURCHASE_TABLE else SALES_TABLE.

(** [if row.get(k, ''): del row[k]] *)
Definition delete_if_set (k : string) (row : dict string value) : dict string value :=
  if truthy (default (Str "") (dict_lookup k row)) then dict_delete k row else row.

(** The body of the loop of [insert_data_into_table], up to the insertion:
    the table and the row of one item. *)
Definition row_of_item (data : normalized_trade) : string * dict string value :=
  let transaction_type := transaction_type data in
  let TABLE := get_database_table transaction_type in
  let row : dict string value :=
    [("filling", Str (filling data));
     ("cik", Str (cik data));
     ("q", Str (ceo_name data +:+ " - " +:+ company_name data));
     ("share_price", Num (share_price data));
     ("accessionNo", Str (accessionNo data));
     ("ticker", Str (ticker data));
     ("sector", Str (sector data));
     ("market_cap", Str (market_cap data));
     ("periodOfReport", Str (periodOfReport data));
     ("transaction_type", Str (transaction_type));
     ("ceo_name", Str (ceo_name data));
     ("company_name", Str (company_name data));
     ("total_shares", Num (total_shares data));
     ("disclosed_date", Str (disclosed_date data));
     ("total_amount_spent", Num (total_amount_spent data));
     ("total_shares_after_transaction", Num (total_shares_after_transaction data));
     ("change_in_shares_percentage", Num (change_in_shares_percentage data));
     ("link", value_of_str (link data))] in
  let row :=
    if bool_decide (lower transaction_type = "p") then
      dict_set "six_months_return" (value_of_num (six_months_return data))
        (dict_set "one_month_return" (value_of_num (one_month_return data))
           (dict_set "one_week_return" (value_of_num (one_week_return data)) row))
    else row in
  let row :=
    if bool_decide (lower transaction_type = "s") then
      delete_if_set "six_months_return"
        (delete_if_set "one_month_return" (delete_if_set "one_week_return" row))
    else row in
  (TABLE, row).

(** The insertions that [insert_data_into_table] attempts, in order, and how
    it ends: an insertion that raises ends the loop. *)
Fixpoint insert_data_into_table (items : list normalized_trade)
    : list (string * dict string value) * result unit :=
  match items with
  | [] => ([], Ok tt)
  | data :: items' =>
      let '(TABLE, row) := row_of_item data in
      match execute TABLE row with
      | Ok _ =>
          let '(inserted, outcome) := insert_data_into_table items' in
          ((TABLE, row) :: inserted, outcome)
      | Raise e => ([(TABLE, row)], Raise e)
      end
  end.
End TradeTables.

(** The names of the columns that every row carries, and of the three that
    the rows of purchases carry besides. *)
Definition trade_columns : list string :=
  ["filling"; "cik"; "q"; "share_price"; "accessionNo"; "ticker"; "sector"; "market_cap";
   "periodOfReport"; "transaction_type"; "ceo_name"; "company_name"; "total_shares";
   "disclosed_date"; "total_amount_spent"; "total_shares_after_transaction";
   "change_in_shares_percentage"; "link"].

Definition return_columns : list string :=
  ["one_week_return"; "one_month_return"; "six_months_return"].

(** ** [app/internals/supabase_helper.py]: the recipients of a notification *)

(** One user of a query.  A field is [None] when reading it raises: a key of
    the path to it is missing, or the user of a watchlist entry is null.  The
    flags are read at [users.watchlist_notification] for the watchlist and at
    [settings] for the two other queries. *)
Record contact : Type := {
  ct_email_notification : option bool;
  ct_email : option string;
  ct_text_notification : option bool;
  ct_phone : option string
}.

(** The dictionary [res]. *)
Record recipients : Type := {
  emails : list string;
  phones : list string
}.

(** [if flag and email not in res['emails']: res['emails'].append(email)] *)
Definition add_email (res : recipients) (user : contact) : result recipients :=
  flag ← getitem "email_notification" (ct_email_notification user);
  if flag : bool then
    email ← getitem "email" (ct_email user);
    Ok (if bool_decide (email ∈ emails res) then res
        else {| emails := emails res ++ [email]; phones := phones res |})
  else Ok res.

Definition add_phone (res : recipients) (user : contact) : result recipients :=
  flag ← getitem "text_notification" (ct_text_notification user);
  if flag : bool then
    phone ← getitem "phone" (ct_phone user);
    Ok (if bool_decide (phone ∈ phones res) then res
        else {| emails := emails res; phones := phones res ++ [phone] |})
  else Ok res.

(** A [for] loop over the users of one query inside its [try]: [res] is
    changed in place, so that what was appended before an exception stays. *)
Fixpoint add_contacts (res : recipients) (users : list contact) : recipients :=
  match users with
  | [] => res
  | user :: users' =>
      match add_email res user with
      | Raise _ => res
      | Ok res1 =>
          match add_phone res1 user with
          | Raise _ => res1
          | Ok res2 => add_contacts res2 users'
          end
      end
  end.

(** [try: users = query(); for user in users: ... except Exception: print(...)] *)
Definition add_query (res : recipients) (query : result (list contact)) : recipients :=
  match query with
  | Ok users => add_contacts res users
  | Raise _ => res
  end.

(** [get_users_for_notification], on the outcomes of its three queries. *)
Definition get_users_for_notification
    (watch_list_users activity_users custom_users : result (list contact)) : recipients :=
  let res := {| emails := []; phones := [] |} in
  let res := add_query res watch_list_users in
  let res := add_query res activity_users in
  add_query res custom_users.

(** The users of the queries that returned. *)
Definition queried (queries : list (result (list contact))) : list contact :=
  concat (omap (λ query, match query with Ok users => Some users | Raise _ => None end)
               queries).

(** Every field of the user can be read. *)
Definition readable (user : contact) : bool :=
  is_some (ct_email_notification user) && is_some (ct_email user)
  && is_some (ct_text_notification user) && is_some (ct_phone user).

(** The addresses and the numbers of [res] are distinct, and each belongs to a
    user of [users] who asked for this kind of notification. *)
Definition opted_in (users : list contact) (res : recipients) : Prop :=
  NoDup (emails res) ∧ NoDup (phones res)
  ∧ (∀ email, email ∈ emails res →
       ∃ user, user ∈ users ∧ ct_email_notification user = Some true
               ∧ ct_email user = Some email)
  ∧ (∀ phone, phone ∈ phones res →
       ∃ user, user ∈ users ∧ ct_text_notification user = Some true
               ∧ ct_phone user = Some phone).

(** ** Samples *)

Definition sample_sector_options : dict Z string :=
  [(1%Z, "Technology"); (2%Z, "Consumer Cyclical"); (3%Z, "Energy")].

Definition sample_contact (email phone : string) (by_email by_text : bool) : contact :=
  {| ct_email_notification := Some by_email; ct_email := Some email;
     ct_text_notification := Some by_text; ct_phone := Some phone |}.

Definition sample_execute (TABLE : string) (row : dict string value) : result unit := Ok tt.

Definition sample_watch_list : result (list contact) :=
  Ok [sample_contact "ann@example.com" "+1555" true false;
      sample_contact "bob@example.com" "+1666" false true].

Definition sample_activity : result (list contact) :=
  Ok [sample_contact "ann@example.com" "+1555" true true].

Definition sample_custom : result (list contact) :=
  Raise (ExternalError "rpc failed").

Global Instance contact_eq_dec : EqDecision contact.
Proof. solve_decision. Defined.

Definition sample_insert (items : list normalized_trade)
    : list (string * dict string value) * result unit :=
  insert_data_into_table "purchase_trades" "sales_trades" sample_execute items.

(** The row of the sale of [filing_purchase_and_sale]. *)
Definition sample_sale_row : string * dict string value :=
  row_of_item "purchase_trades" "sales_trades"
    (set_link "https://www.sec.gov/f-1" record_of_sale).

(** ** [stream.py]: the keep-alive task *)

(** How an [await] of [send_ping] ends: it returns, it raises an exception
    that [except Exception] catches, or it raises one that it does not catch
    (the cancellation of the task, where this is no [Exception]). *)
Inductive await_outcome : Type :=
  | Returns
  | RaisesException
  | RaisesOther.

(** The three [await]s of one round of the loop of [send_ping]; the outcome
    of one that is not reached plays no part. *)
Record ping_round : Type := {
  pr_ping : await_outcome;
  pr_pong : await_outcome;
  pr_sleep : await_outcome
}.

Inductive ping_event : Type :=
  | Ping
  | WaitPong (timeout : nat)
  | PingSleep (seconds : nat)
  | CloseConnection.

Global Instance ping_event_eq_dec : EqDecision ping_event.
Proof. solve_decision. Defined.

(** How the task stands when the rounds are used up: its handler has closed
    the connection and the task is over, an exception has left it, or it is
    still in its loop. *)
Inductive ping_end : Type :=
  | PingClosed
  | PingEscaped
  | PingPending.

(** The [try] block of one round (lines 127-130): what it awaits, and the
    outcome that ends it early, if any. *)
Definition ping_round_events (r : ping_round) : list ping_event * option await_outcome :=
  match pr_ping r with
  | Returns =>
      match pr_pong r with
      | Returns =>
          match pr_sleep r with
          | Returns => ([Ping; WaitPong 5; PingSleep 30], None)
          | o => ([Ping; WaitPong 5; PingSleep 30], Some o)
          end
      | o => ([Ping; WaitPong 5], Some o)
      end
  | o => ([Ping], Some o)
  end.

Fixpoint send_ping (rounds : list ping_round) : list ping_event * ping_end :=
  match rounds with
  | [] => ([], PingPending)
  | r :: rounds' =>
      match ping_round_events r with
      | (evs, None) => let '(trace, e) := send_ping rounds' in (evs ++ trace, e)
      | (evs, Some RaisesException) => (evs ++ [CloseConnection], PingClosed)
      | (evs, Some _) => (evs, PingEscaped)
      end
  end.

(** Two pongs in time, then a pong that does not come. *)
Definition sample_rounds : list ping_round :=
  [ {| pr_ping := Returns; pr_pong := Returns; pr_sleep := Returns |};
    {| pr_ping := Returns; pr_pong := Returns; pr_sleep := Returns |};
    {| pr_ping := Returns; pr_pong := RaisesException; pr_sleep := Returns |};
    {| pr_ping := Returns; pr_pong := Returns; pr_sleep := Returns |} ].

(** * Reasoning about the embedding *)

(** ** The error monad and the loops *)

Lemma bind_Ok {A B} (m : result A) (f : A → result B) (b : B) :
  m ≫= f = Ok b ↔ ∃ a, m = Ok a ∧ f a = Ok b.
Proof.
  destruct m as [a|e]; simpl; split.
  - intros H. exists a. done.
  - intros (a' & Ha & H). injection Ha as ->. done.
  - done.
  - intros (a' & H & _). discriminate H.
Qed.


Lemma getitem_Ok {A} (key : string) (o : option A) (a : A) :
  getitem key o = Ok a ↔ o = Some a.
Proof. destruct o; simpl; split; congruence. Qed.


Lemma for_each_app {A S} (l1 l2 : list A) (body : S → A → result S) (s : S) :
  for_each (l1 ++ l2) body s = for_each l1 body s ≫= for_each l2 body.
Proof.
  revert s. induction l1 as [|x l1 IH]; intros s; simpl; [done|].
  destruct (body s x) as [s'|e]; simpl; [apply IH|done].
Qed.

(** A loop that ends normally preserves every invariant of its body. *)
Lemma for_each_invariant {A S} (I : S → Prop) (l : list A)
    (body : S → A → result S) (s s' : S) :
  (∀ s0 x s1, x ∈ l → I s0 → body s0 x = Ok s1 → I s1) →
  I s → for_each l body s = Ok s' → I s'.
Proof.
  revert s. induction l as [|x l IH]; intros s Hbody Hs; simpl.
  - by intros [= <-].
  - intros (s1 & H1 & H2)%bind_Ok. apply (IH s1); [|by eapply Hbody; [left|..]|done].
    intros s0 y s2 Hy. apply Hbody. by right.
Qed.

(** A loop whose body cannot raise under the invariant ends normally. *)
Lemma for_each_total {A S} (I : S → Prop) (l : list A)
    (body : S → A → result S) (s : S) :
  (∀ s0 x, x ∈ l → I s0 → ∃ s1, body s0 x = Ok s1 ∧ I s1) →
  I s → ∃ s', for_each l body s = Ok s' ∧ I s'.
Proof.
  revert s. induction l as [|x l IH]; intros s Hbody Hs; simpl.
  - by exists s.
  - destruct (Hbody s x) as (s1 & -> & H1); [by left|done|]. simpl.
    apply IH; [|done]. intros s0 y Hy. apply Hbody. by right.
Qed.


Lemma filter_none {A} (P : A → Prop) `{∀ x, Decision (P x)} (l : list A) :
  Forall (λ x, ¬ P x) l → filter P l = [].
Proof.
  induction 1 as [|x l Hx _ IH]; [done|]. by rewrite filter_cons_False.
Qed.


(** ** Dictionaries that collect lists *)

Section Grouping.
Context {K V : Type} `{EqDecision K}.

Lemma first_occurrences_snoc (l : list K) (k : K) :
  first_occurrences (l ++ [k]) = add_key (first_occurrences l) k.
Proof. unfold first_occurrences. by rewrite fold_left_app. Qed.

Lemma first_occurrences_elem_of (l : list K) (k : K) :
  k ∈ first_occurrences l ↔ k ∈ l.
Proof.
  induction l as [|x l IH] using rev_ind.
  - done.
  - rewrite first_occurrences_snoc. unfold add_key. case_bool_decide as Hx.
    + rewrite elem_of_app, list_elem_of_singleton, <- IH.
      split; [by left|]. intros [?| ->]; done.
    + by rewrite !elem_of_app, IH.
Qed.

Lemma first_occurrences_NoDup (l : list K) : NoDup (first_occurrences l).
Proof.
  induction l as [|x l IH] using rev_ind.
  - constructor.
  - rewrite first_occurrences_snoc. unfold add_key. case_bool_decide as Hx; [done|].
    apply NoDup_app. split; [done|]. split; [|apply NoDup_singleton].
    intros y Hy ->%list_elem_of_singleton. done.
Qed.

Lemma dict_contains_keys {W} (k : K) (d : dict K W) :
  dict_contains k d = bool_decide (k ∈ d.*1).
Proof.
  induction d as [|[k' v] d IH]; simpl; [done|].
  destruct (decide (k = k')) as [->|Hne].
  - symmetry. apply bool_decide_eq_true. by left.
  - rewrite IH. apply bool_decide_ext. rewrite elem_of_cons.
    split; [by right|]. by intros [?|?].
Qed.

Lemma dict_set_fresh {W} (k : K) (v : W) (d : dict K W) :
  k ∉ d.*1 → dict_set k v d = d ++ [(k, v)].
Proof.
  induction d as [|[k' v'] d IH]; simpl; [done|].
  intros Hk. apply not_elem_of_cons in Hk as [Hne Hd].
  rewrite decide_False by done. by rewrite IH.
Qed.

Lemma dict_alter_last {W} (f : W → W) (k : K) (v : W) (d : dict K W) :
  k ∉ d.*1 → dict_alter f k (d ++ [(k, v)]) = d ++ [(k, f v)].
Proof.
  induction d as [|[k' v'] d IH]; simpl.
  - intros _. by rewrite decide_True.
  - intros Hk. apply not_elem_of_cons in Hk as [Hne Hd].
    rewrite decide_False by done. by rewrite IH.
Qed.

Lemma dict_alter_fmap {W} (f : W → W) (k : K) (g : K → W) (keys : list K) :
  NoDup keys →
  dict_alter f k ((λ k', (k', g k')) <$> keys)
  = (λ k', (k', if decide (k' = k) then f (g k') else g k')) <$> keys.
Proof.
  induction 1 as [|k0 keys Hk0 Hnd IH]; [done|].
  rewrite !fmap_cons. cbn [dict_alter].
  destruct (decide (k = k0)) as [->|Hne].
  - rewrite decide_True by done. f_equal.
    apply list_fmap_ext. intros i k' Hk'%list_elem_of_lookup_2.
    rewrite decide_False; [done|]. by intros ->.
  - rewrite decide_False by done. by rewrite IH.
Qed.

Lemma grouping_snoc (l : list (K * V)) (k : K) (x : V) :
  dict_group_append k x (grouping l) = grouping (l ++ [(k, x)]).
Proof.
  unfold dict_group_append, grouping. cbv zeta.
  rewrite fmap_app. change ([(k, x)].*1) with [k].
  rewrite first_occurrences_snoc. unfold add_key.
  rewrite dict_contains_keys, <- list_fmap_compose.
  replace (fst ∘ _ <$> first_occurrences l.*1) with (first_occurrences l.*1)
    by (by rewrite list_fmap_id).
  case_bool_decide as Hk.
  - rewrite dict_alter_fmap by apply first_occurrences_NoDup.
    apply list_fmap_ext. intros _ k' _. f_equal.
    rewrite filter_app, fmap_app. destruct (decide (k' = k)) as [->|Hne].
    + by rewrite filter_cons_True.
    + rewrite filter_cons_False by (simpl; congruence). simpl. by rewrite app_nil_r.
  - rewrite dict_set_fresh, dict_alter_last.
    + rewrite fmap_app. simpl. f_equal.
      * apply list_fmap_ext. intros _ k' Hk'%list_elem_of_lookup_2. f_equal.
        rewrite filter_app, fmap_app, filter_cons_False; [by rewrite app_nil_r|].
        simpl. by intros ->.
      * do 2 f_equal. rewrite filter_app, fmap_app, filter_cons_True by done.
        rewrite first_occurrences_elem_of in Hk.
        replace (filter _ l) with (@nil (K * V)); [done|].
        symmetry. apply filter_none, Forall_forall. intros [k0 v0] Hin. simpl.
        intros ->. apply Hk. apply list_elem_of_fmap. by exists (k, v0).
    + rewrite <- list_fmap_compose.
      replace (fst ∘ _ <$> first_occurrences l.*1) with (first_occurrences l.*1); [done|].
      by rewrite list_fmap_id.
    + rewrite <- list_fmap_compose.
      replace (fst ∘ _ <$> first_occurrences l.*1) with (first_occurrences l.*1); [done|].
      by rewrite list_fmap_id.
Qed.

(** Collecting a list of pairs one by one yields their grouping. *)
Lemma fold_group_append (l0 l : list (K * V)) :
  fold_left group_append_step l (grouping l0) = grouping (l0 ++ l).
Proof.
  revert l0. induction l as [|[k x] l IH]; intros l0; simpl.
  - by rewrite app_nil_r.
  - unfold group_append_step at 2. simpl. rewrite grouping_snoc, IH. by rewrite <- app_assoc.
Qed.

Lemma grouping_keys (l : list (K * V)) : (grouping l).*1 = first_occurrences l.*1.
Proof.
  unfold grouping. rewrite <- list_fmap_compose. apply list_fmap_id.
Qed.

Lemma grouping_elem_of (l : list (K * V)) (k : K) (vs : list V) :
  (k, vs) ∈ grouping l → k ∈ l.*1 ∧ vs = snd <$> filter (λ kv, kv.1 = k) l.
Proof.
  unfold grouping. intros (k' & [= -> ->] & Hk)%list_elem_of_fmap.
  by rewrite first_occurrences_elem_of in Hk.
Qed.
End Grouping.

(** ** Rounding *)

Lemma round_half_even_nearest (y : Q) :
  (Qabs (inject_Z (round_half_even y) - y) <= 1 # 2)%Q.
Proof.
  unfold round_half_even.
  pose proof (Qfloor_le y) as Hlo. pose proof (Qlt_floor y) as Hhi.
  rewrite inject_Z_plus in Hhi. change (inject_Z 1) with 1%Q in Hhi.
  apply Qabs_Qle_condition.
  destruct (Qcompare_spec (y - inject_Z (Qfloor y)) (1 # 2)) as [Heq|Hlt|Hgt].
  - destruct (Z.even (Qfloor y)).
    + split; lra.
    + rewrite inject_Z_plus. change (inject_Z 1) with 1%Q. split; lra.
  - split; lra.
  - rewrite inject_Z_plus. change (inject_Z 1) with 1%Q. split; lra.
Qed.

(** [round(x, 4)] is a multiple of 1/10000... *)
Lemma py_round_places (x : Qc) :
  ∃ k : Z, (py_round x 4 == k # 10000)%Q.
Proof.
  unfold py_round. simpl this. set (k := round_half_even _). exists k.
  rewrite Qred_correct. change (inject_Z (10 ^ Z.of_nat 4)) with (10000 # 1)%Q.
  unfold Qeq. cbn -[Z.mul]. lia.
Qed.

(** ... at most 1/20000 away from [x]. *)
Lemma py_round_nearest (x : Qc) :
  (Qabs (py_round x 4 - x) <= 1 # 20000)%Q.
Proof.
  unfold py_round. simpl this. rewrite Qred_correct.
  pose proof (round_half_even_nearest (x * inject_Z (10 ^ Z.of_nat 4))%Q) as H.
  set (r := inject_Z (round_half_even _)) in *.
  change (inject_Z (10 ^ Z.of_nat 4)) with (10000 # 1)%Q in *.
  apply Qabs_Qle_condition in H as [H1 H2]. apply Qabs_Qle_condition.
  assert (r / (10000 # 1) == r * (1 # 10000))%Q as -> by field.
  split; lra.
Qed.

(** ** Sums *)

Lemma fold_left_Qcplus (l : list Qc) (a : Qc) : fold_left Qcplus l a = a + py_sum l.
Proof.
  unfold py_sum. revert a. induction l as [|x l IH]; intros a; simpl.
  - ring.
  - rewrite (IH (a + x)), (IH (0 + x)). ring.
Qed.

Lemma py_sum_nil : py_sum [] = 0.
Proof. done. Qed.

Lemma py_sum_cons (x : Qc) (l : list Qc) : py_sum (x :: l) = x + py_sum l.
Proof. unfold py_sum at 1. simpl. rewrite fold_left_Qcplus. ring. Qed.

Lemma py_sum_app (l1 l2 : list Qc) : py_sum (l1 ++ l2) = py_sum l1 + py_sum l2.
Proof.
  induction l1 as [|x l1 IH]; simpl.
  - rewrite py_sum_nil. ring.
  - rewrite !py_sum_cons, IH. ring.
Qed.

(** ** Grouping the transactions by their code *)

Lemma is_some_true {A} (o : option A) : is_some o = true ↔ ∃ a, o = Some a.
Proof.
  destruct o as [a|]; simpl; split.
  - by exists a.
  - done.
  - done.
  - intros [a Ha]. discriminate Ha.
Qed.

Lemma coding_code_of_Ok (t : transaction) (c : string) :
  coding_code_of t = Ok c ↔ code_of t = Some c.
Proof.
  unfold coding_code_of, code_of. destruct (tx_coding t) as [cd|]; simpl; [|done].
  apply getitem_Ok.
Qed.


Lemma coding_code_of_code_of (t : transaction) :
  coding_code_of t = match code_of t with
                     | Some c => Ok c
                     | None => Raise (KeyError (match tx_coding t with
                                                | Some _ => "code"
                                                | None => "coding"
                                                end))
                     end.
Proof.
  unfold coding_code_of, code_of. destruct (tx_coding t) as [[[c|]]|]; done.
Qed.

Section GroupByCoding.
Let body := λ (combined_transactions : dict string (list transaction)) transaction,
  coding_code ← coding_code_of transaction;
  Ok (dict_group_append coding_code transaction combined_transactions).

Lemma group_loop_Ok (transactions : list transaction) d g :
  for_each transactions body d = Ok g →
  forallb (λ t, is_some (code_of t)) transactions = true
  ∧ g = fold_left group_append_step (coded_pairs transactions) d.
Proof.
  revert d. induction transactions as [|t l IH]; intros d; simpl.
  - by intros [= <-].
  - intros (d' & Hb & Hl)%bind_Ok. unfold body in Hb.
    apply bind_Ok in Hb as (c & Hc%coding_code_of_Ok & [= <-]).
    destruct (IH _ Hl) as [-> ->]. unfold coded_pairs. simpl. by rewrite Hc.
Qed.

Lemma group_loop_total (transactions : list transaction) d :
  forallb (λ t, is_some (code_of t)) transactions = true →
  ∃ g, for_each transactions body d = Ok g.
Proof.
  revert d. induction transactions as [|t l IH]; intros d; simpl.
  - eauto.
  - intros [Ht Hl]%andb_true_iff. apply is_some_true in Ht as [c Hc].
    replace (body d t) with (Ok (dict_group_append c t d)); [by apply IH|].
    unfold body. by rewrite coding_code_of_code_of, Hc.
Qed.

End GroupByCoding.

Lemma coded_pairs_keys (transactions : list transaction) :
  (coded_pairs transactions).*1 = omap code_of transactions.
Proof.
  unfold coded_pairs. induction transactions as [|t l IH]; csimpl; [done|].
  destruct (code_of t); csimpl; by rewrite ?IH.
Qed.

Lemma coded_pairs_filter (c : string) (transactions : list transaction) :
  snd <$> filter (λ kv, kv.1 = c) (coded_pairs transactions) = group_of c transactions.
Proof.
  unfold coded_pairs, group_of. induction transactions as [|t l IH]; csimpl; [done|].
  destruct (code_of t) as [c'|] eqn:Hc; csimpl.
  - destruct (decide (c' = c)) as [->|Hne].
    + rewrite !filter_cons_True by done. csimpl. by rewrite IH.
    + rewrite !filter_cons_False by (simpl; congruence). done.
  - rewrite filter_cons_False by (by rewrite Hc). done.
Qed.

(** [group_transaction_by_coding] returns, for every code of the table in
    the order of its first occurrence, the transactions with that code. *)
Lemma group_transaction_by_coding_Ok (transactions : list transaction) g :
  group_transaction_by_coding transactions = Ok g →
  forallb (λ t, is_some (code_of t)) transactions = true
  ∧ g = (λ c, (c, group_of c transactions)) <$> first_occurrences (omap code_of transactions).
Proof.
  intros [Hall ->]%group_loop_Ok. split; [done|].
  change (@nil (string * list transaction)) with (grouping (@nil (string * transaction))).
  rewrite fold_group_append. simpl. unfold grouping. rewrite coded_pairs_keys.
  apply list_fmap_ext. intros _ c _. by rewrite coded_pairs_filter.
Qed.

Lemma group_transaction_by_coding_total (transactions : list transaction) :
  forallb (λ t, is_some (code_of t)) transactions = true →
  ∃ g, group_transaction_by_coding transactions = Ok g.
Proof. apply group_loop_total. Qed.


(** ** The loop over the transactions of one group *)

Lemma transaction_body_complete ts tas g (t : transaction) :
  tx_complete t = true →
  ∃ sh post,
    shares_of t = Some sh ∧ tx_postTransactionAmounts t = Some post
    ∧ transaction_body (ts, tas, g) t
      = Ok (ts + sh, tas + sh * price_of t,
            if decide (is_indirect t)
            then {| gr_D := gr_D g;
                    gr_indirect := dict_group_append (nature_of t) post (gr_indirect g) |}
            else {| gr_D := gr_D g ++ [post]; gr_indirect := gr_indirect g |}).
Proof.
  unfold tx_complete, shares_of, ownership_of, price_of, nature_of, is_indirect.
  destruct t as [cd [[[sh|] pr]|] [[[own|] na]|] [post|]]; simpl; try done.
  intros _. exists sh, post. do 2 (split; [done|]).
  case_bool_decide as Hown.
  - subst own. by rewrite decide_True.
  - rewrite decide_False; [done|]. by intros [= ->].
Qed.

Lemma transaction_body_incomplete st (t : transaction) :
  tx_complete t = false → ∃ key, transaction_body st t = Raise (KeyError key).
Proof.
  destruct st as [[ts tas] g].
  unfold tx_complete, shares_of, ownership_of.
  destruct t as [cd [[[sh|] pr]|] [[[own|] na]|] [post|]]; simpl; try done; eauto.
Qed.


Lemma transactions_loop_Ok (l : list transaction) ts tas g ts' tas' g' :
  for_each l transaction_body (ts, tas, g) = Ok (ts', tas', g') →
  forallb tx_complete l = true
  ∧ ts' = ts + py_sum ((λ t, default 0 (shares_of t)) <$> l)
  ∧ tas' = tas + py_sum ((λ t, default 0 (shares_of t) * price_of t) <$> l)
  ∧ gr_D g' = gr_D g ++ omap tx_postTransactionAmounts (filter (λ t, ¬ is_indirect t) l)
  ∧ gr_indirect g' = fold_left group_append_step (indirect_pairs l) (gr_indirect g).
Proof.
  revert ts tas g. induction l as [|t l IH]; intros ts tas g.
  - intros [= <- <- <-]. csimpl. rewrite py_sum_nil, app_nil_r.
    repeat split; try done; ring.
  - cbn [for_each]. intros (st1 & Hb & Hl)%bind_Ok.
    destruct (tx_complete t) eqn:Ht; cycle 1.
    { destruct (transaction_body_incomplete (ts, tas, g) t Ht) as [key Hr]. congruence. }
    destruct (transaction_body_complete ts tas g t Ht) as (sh & post & Hsh & Hpost & Heq).
    rewrite Heq in Hb. injection Hb as <-.
    apply IH in Hl as (Hall & -> & -> & HD & Hind).
    cbn [forallb]. rewrite Ht, Hall. rewrite !fmap_cons, !py_sum_cons, Hsh. simpl default.
    split; [done|]. split; [ring|]. split; [ring|].
    unfold indirect_pairs. destruct (decide (is_indirect t)) as [Hi|Hi]; simpl in HD, Hind.
    + rewrite filter_cons_False by tauto. rewrite filter_cons_True by done.
      csimpl. rewrite Hpost. csimpl. done.
    + rewrite filter_cons_True by done. rewrite filter_cons_False by done.
      csimpl. rewrite Hpost. rewrite HD, <- app_assoc. done.
Qed.

Lemma transactions_loop_total (l : list transaction) st :
  forallb tx_complete l = true → ∃ st', for_each l transaction_body st = Ok st'.
Proof.
  revert st. induction l as [|t l IH]; intros [[ts tas] g]; cbn [for_each forallb].
  - eauto.
  - intros [Ht Hl]%andb_true_iff.
    destruct (transaction_body_complete ts tas g t Ht) as (sh & post & _ & _ & ->).
    simpl. by apply IH.
Qed.


(** ** The shares owned after the transactions *)

Lemma last_omap_post (l : list transaction) :
  forallb tx_complete l = true →
  extract_last_item (omap tx_postTransactionAmounts l) = last_shares l.
Proof.
  unfold extract_last_item, last_shares. intros Hall.
  induction l as [|t l IH] using rev_ind; [done|].
  rewrite forallb_app in Hall. apply andb_true_iff in Hall as [_ Ht].
  simpl in Ht. rewrite andb_true_r in Ht.
  unfold tx_complete in Ht. apply andb_true_iff in Ht as [_ [post Hpost]%is_some_true].
  rewrite omap_app. csimpl. rewrite Hpost. csimpl. rewrite !last_snoc.
  unfold shares_owned_following. by rewrite Hpost.
Qed.

Lemma forallb_filter {A} (f : A → bool) (P : A → Prop) `{∀ x, Decision (P x)} (l : list A) :
  forallb f l = true → forallb f (filter P l) = true.
Proof.
  induction l as [|x l IH]; [done|]. cbn [forallb]. intros [Hx Hl]%andb_true_iff.
  destruct (decide (P x)).
  - rewrite filter_cons_True by done. cbn [forallb]. by rewrite Hx, IH.
  - rewrite filter_cons_False by done. by apply IH.
Qed.

Lemma indirect_pairs_keys (l : list transaction) :
  forallb tx_complete l = true →
  (indirect_pairs l).*1 = nature_of <$> filter is_indirect l.
Proof.
  unfold indirect_pairs. intros Hall%(forallb_filter _ is_indirect).
  induction (filter is_indirect l) as [|t l' IH]; [done|].
  cbn [forallb] in Hall. apply andb_true_iff in Hall as [Ht Hl].
  unfold tx_complete in Ht. apply andb_true_iff in Ht as [_ [post Hpost]%is_some_true].
  csimpl. rewrite Hpost. csimpl. by rewrite IH.
Qed.

Lemma indirect_pairs_filter (nature : option string) (l : list transaction) :
  snd <$> filter (λ kv, kv.1 = nature) (indirect_pairs l)
  = omap tx_postTransactionAmounts (filter (λ t, nature_of t = nature) (filter is_indirect l)).
Proof.
  unfold indirect_pairs.
  induction (filter is_indirect l) as [|t l' IH]; [done|].
  csimpl. destruct (tx_postTransactionAmounts t) as [post|] eqn:Hpost; csimpl.
  - destruct (decide (nature_of t = nature)) as [Hn|Hn].
    + rewrite !filter_cons_True by done. csimpl. by rewrite Hpost, IH.
    + rewrite !filter_cons_False by done. done.
  - destruct (decide (nature_of t = nature)) as [Hn|Hn].
    + rewrite filter_cons_True by done. csimpl. by rewrite Hpost.
    + by rewrite filter_cons_False by done.
Qed.

(** The sum of the last items of the indirect dictionary. *)
Lemma indirect_last_items (l : list transaction) :
  forallb tx_complete l = true →
  py_sum (snd <$> ((λ kv : option string * list post_transaction_amounts,
                      (kv.1, extract_last_item kv.2)) <$> grouping (indirect_pairs l)))
  = indirect_contribution l.
Proof.
  intros Hall. unfold indirect_contribution, grouping.
  rewrite indirect_pairs_keys by done. rewrite <- !list_fmap_compose. f_equal.
  apply list_fmap_ext. intros _ nature _. simpl.
  rewrite indirect_pairs_filter. apply last_omap_post.
  by do 2 apply forallb_filter.
Qed.

Lemma add_holdings_sum (holdings : option (list holding)) (total : Qc) :
  add_holdings holdings total = total + holdings_contribution holdings.
Proof.
  unfold add_holdings, holdings_contribution.
  destruct holdings as [l|]; simpl; [|rewrite py_sum_nil; ring].
  assert (∀ total, fold_left (λ total x,
            match hd_postTransactionAmounts x with
            | Some pta =>
                match pta_sharesOwnedFollowingTransaction pta with
                | Some v => total + v
                | None => total
                end
            | None => total
            end) l total = total + py_sum (omap holding_shares l)) as Hfold.
  { clear total. induction l as [|h l IH]; intros total; csimpl.
    - rewrite py_sum_nil. ring.
    - rewrite IH. destruct h as [[[[v|]]|]]; csimpl; rewrite ?py_sum_cons; ring. }
  destruct l as [|h l]; [|apply Hfold].
  csimpl. rewrite py_sum_nil. ring.
Qed.

(** ** One coding group *)

Section GroupBody.
Context (sectors_with_ticker market_cap_with_ticker : dict string (list string)).
Context (doc : insider_trade) (ndt : non_derivative_table) (transactions : list transaction).
Context (tick ceo company : string).

Let body := group_body sectors_with_ticker market_cap_with_ticker doc tick ceo company
              ndt transactions.

Lemma group_body_skip st c g : qualifying c = false → body st (c, g) = Ok st.
Proof. unfold body, group_body, qualifying. by intros ->. Qed.

Lemma group_body_total st c g iss :
  forallb tx_complete g = true →
  it_issuer doc = Some iss →
  record_fields_present doc iss transactions = true →
  ∃ st', body st (c, g) = Ok st'.
Proof.
  intros Hall Hiss Hfields. unfold body, group_body.
  destruct (bool_decide (c ∈ ["P"; "S"])); [|by eexists].
  destruct (transactions_loop_total g
    (lc_total_shares st, lc_total_amount_spent st, {| gr_D := []; gr_indirect := [] |}) Hall)
    as ([[ts tas] gt] & ->).
  unfold record_fields_present in Hfields.
  repeat (apply andb_true_iff in Hfields as [Hfields ?]).
  repeat match goal with
         | H : is_some _ = true |- _ => apply is_some_true in H as [? H]
         end.
  destruct transactions as [|t0 l]; [done|].
  match goal with
  | H : is_some _ = true |- _ => apply is_some_true in H as [am0 Ham0]
  end.
  rewrite Hiss. simpl.
  repeat match goal with
         | H : _ = Some _ |- _ => rewrite H; clear H; simpl
         end.
  case_bool_decide as Hz; simpl; [|by eexists].
  unfold truediv. rewrite bool_decide_eq_false_2 by done. simpl. by eexists.
Qed.


Hypothesis Hndt : it_nonDerivativeTable doc = Some ndt.
Hypothesis Htxs : ndt_transactions ndt = Some transactions.

Lemma group_body_Ok st st' c :
  qualifying c = true →
  body st (c, group_of c transactions) = Ok st' →
  ∃ r, lc_results st' = lc_results st ++ [r]
       ∧ lc_total_shares st' = total_shares r
       ∧ lc_total_amount_spent st' = total_amount_spent r
       ∧ total_shares r
         = lc_total_shares st
           + py_sum ((λ t, default 0 (shares_of t)) <$> group_of c transactions)
       ∧ total_amount_spent r
         = lc_total_amount_spent st
           + py_sum ((λ t, default 0 (shares_of t) * price_of t) <$> group_of c transactions)
       ∧ record_for doc c r.
Proof.
  unfold body, group_body, qualifying. intros -> H.
  apply bind_Ok in H as ([[ts tas] gt] & Hloop & H).
  apply bind_Ok in H as (date & Hdate%getitem_Ok & H).
  apply bind_Ok in H as (first & Hfirst & H).
  apply bind_Ok in H as (am0 & Ham0%getitem_Ok & H).
  apply bind_Ok in H as (chg & Hchg & H).
  apply bind_Ok in H as (id & Hid%getitem_Ok & H).
  apply bind_Ok in H as (iss & Hiss%getitem_Ok & H).
  apply bind_Ok in H as (cik_ & Hcik%getitem_Ok & H).
  apply bind_Ok in H as (acc & Hacc%getitem_Ok & H).
  apply bind_Ok in H as (per & Hper%getitem_Ok & H).
  injection H as <-.
  apply transactions_loop_Ok in Hloop as (Hall & -> & -> & HD & Hind).
  simpl in HD, Hind.
  eexists. split; [reflexivity|]. cbn [lc_total_shares lc_total_amount_spent total_shares
    total_amount_spent]. do 4 (split; [reflexivity|]).
  unfold record_for, transactions_of, holdings_of. rewrite Hndt. simpl. rewrite Htxs. simpl.
  split; [done|]. split; [done|]. split.
  { exists iss. split; [done|]. unfold record_fields_present.
    rewrite Hdate, Hid, Hcik, Hacc, Hper. destruct transactions as [|t0 l]; [done|].
    injection Hfirst as ->. by rewrite Ham0. }
  assert (add_holdings (ndt_holdings ndt)
            (py_sum ([extract_last_item (gr_D gt)]
                     ++ ((λ kv : option string * list post_transaction_amounts,
                            (kv.1, extract_last_item kv.2)) <$> gr_indirect gt).*2))
          = last_shares (filter (λ t, ¬ is_indirect t) (group_of c transactions))
            + indirect_contribution (group_of c transactions)
            + holdings_contribution (ndt_holdings ndt)) as Hafter.
  { rewrite add_holdings_sum. f_equal. simpl. rewrite py_sum_cons. f_equal.
    - rewrite HD. apply last_omap_post. by apply forallb_filter.
    - rewrite Hind.
      change (@nil (option string * list post_transaction_amounts))
        with (grouping (@nil (option string * post_transaction_amounts))).
      rewrite fold_group_append. simpl. by apply indirect_last_items. }
  split; [exact Hafter|]. split.
  { destruct transactions as [|t0 l]; [done|]. injection Hfirst as ->.
    unfold price_of. by rewrite Ham0. }
  f_equal. clear Hafter.
  match goal with
  | |- _ = if decide (?after = 0) then _ else _ =>
      destruct (decide (after = 0)) as [Hz|Hz]
  end.
  - rewrite bool_decide_eq_false_2 in Hchg by (intros Hn; by apply Hn).
    by injection Hchg as <-.
  - rewrite bool_decide_eq_true_2 in Hchg by done. unfold truediv in Hchg.
    rewrite bool_decide_eq_false_2 in Hchg by done. by injection Hchg as <-.
Qed.

(** The records that the loop over the groups appends: one for every
    qualifying code, in the order of the codes. *)
Lemma groups_loop_Ok (codes : list string) st st' :
  for_each ((λ c, (c, group_of c transactions)) <$> codes) body st = Ok st' →
  ∃ news, lc_results st' = lc_results st ++ news
          ∧ Forall2 (record_for doc) (filter (λ c, qualifying c = true) codes) news.
Proof.
  revert st. induction codes as [|c codes IH]; intros st.
  - intros [= <-]. exists []. by rewrite app_nil_r.
  - rewrite fmap_cons. cbn [for_each]. intros (st1 & Hb & Hl)%bind_Ok.
    apply IH in Hl as (news & Hnews & Hrec).
    destruct (qualifying c) eqn:Hq.
    + apply group_body_Ok in Hb as (r & Hr & _ & _ & _ & _ & Hfor); [|done].
      exists (r :: news). rewrite Hnews, Hr, <- app_assoc. split; [done|].
      rewrite filter_cons_True by done. by constructor.
    + rewrite group_body_skip in Hb by done. injection Hb as <-.
      exists news. split; [done|]. by rewrite filter_cons_False by congruence.
Qed.

(** The totals of the records: [total_shares] and [total_amount_spent] are
    assigned once, before the loop over the groups, so that every record
    carries the totals of all the qualifying groups up to its own. *)
Lemma groups_loop_totals (codes : list string) st st' :
  for_each ((λ c, (c, group_of c transactions)) <$> codes) body st = Ok st' →
  ∃ news, lc_results st' = lc_results st ++ news
          ∧ total_shares <$> news
            = running_totals (lc_total_shares st)
                ((λ c, group_shares c transactions)
                   <$> filter (λ c, qualifying c = true) codes)
          ∧ total_amount_spent <$> news
            = running_totals (lc_total_amount_spent st)
                ((λ c, group_amount_spent c transactions)
                   <$> filter (λ c, qualifying c = true) codes).
Proof.
  revert st. induction codes as [|c codes IH]; intros st.
  - intros [= <-]. exists []. by rewrite app_nil_r.
  - rewrite fmap_cons. cbn [for_each]. intros (st1 & Hb & Hl)%bind_Ok.
    apply IH in Hl as (news & Hnews & Hshares & Hspent).
    destruct (qualifying c) eqn:Hq.
    + apply group_body_Ok in Hb as (r & Hr & Hts & Htas & Hrs & Hra & _); [|done].
      exists (r :: news). rewrite Hnews, Hr, <- app_assoc. split; [done|].
      rewrite filter_cons_True by done. rewrite !fmap_cons. cbn [running_totals].
      unfold group_shares, group_amount_spent.
      by rewrite Hshares, Hspent, Hts, Htas, Hrs, Hra.
    + rewrite group_body_skip in Hb by done. injection Hb as <-.
      exists news. split; [done|]. by rewrite filter_cons_False by congruence.
Qed.
End GroupBody.

(** ** The extractor as a whole *)

Lemma forallb_elem_of {A} (f : A → bool) (l : list A) :
  forallb f l = true ↔ ∀ x, x ∈ l → f x = true.
Proof.
  rewrite forallb_forall. split; intros H x Hx; apply H; by apply list_elem_of_In.
Qed.

Lemma existsb_elem_of {A} (f : A → bool) (l : list A) :
  existsb f l = true ↔ ∃ x, x ∈ l ∧ f x = true.
Proof.
  rewrite existsb_exists. split; intros (x & Hx & Hf); exists x; split; try done;
    by apply list_elem_of_In.
Qed.

Lemma elem_of_omap_code_of (c : string) (transactions : list transaction) :
  c ∈ omap code_of transactions ↔ ∃ t, t ∈ transactions ∧ code_of t = Some c.
Proof. apply list_elem_of_omap. Qed.

Lemma elem_of_group_of (t : transaction) (c : string) (transactions : list transaction) :
  t ∈ group_of c transactions ↔ code_of t = Some c ∧ t ∈ transactions.
Proof. unfold group_of. by rewrite list_elem_of_filter. Qed.

Lemma tx_qualifying_true (t : transaction) :
  tx_qualifying t = true ↔ ∃ c, code_of t = Some c ∧ qualifying c = true.
Proof.
  unfold tx_qualifying. destruct (code_of t) as [c|]; split.
  - intros H. by exists c.
  - by intros (c' & [= <-] & H).
  - done.
  - by intros (c' & [=] & _).
Qed.

Lemma elem_of_qualifying_codes (c : string) (transactions : list transaction) :
  c ∈ qualifying_codes transactions
  ↔ qualifying c = true ∧ ∃ t, t ∈ transactions ∧ code_of t = Some c.
Proof.
  unfold qualifying_codes.
  by rewrite list_elem_of_filter, first_occurrences_elem_of, elem_of_omap_code_of.
Qed.

Section Extract.
Context (sectors_with_ticker market_cap_with_ticker : dict string (list string)).

Let extract := extract_insider_trades_info_single sectors_with_ticker market_cap_with_ticker.

(** A normal return of the extractor: the fields it read were there, and it
    emitted one record for each qualifying code. *)
Lemma extract_Ok (doc : insider_trade) rs :
  extract doc = Ok rs →
  (∃ iss ro ndt transactions,
      it_issuer doc = Some iss ∧ it_reportingOwner doc = Some ro
      ∧ it_nonDerivativeTable doc = Some ndt ∧ ndt_transactions ndt = Some transactions
      ∧ is_some (is_tradingSymbol iss) = true ∧ is_some (ro_name ro) = true
      ∧ is_some (is_name iss) = true
      ∧ forallb (λ t, is_some (code_of t)) transactions = true)
  ∧ Forall2 (record_for doc) (qualifying_codes (transactions_of doc)) rs.
Proof.
  unfold extract, extract_insider_trades_info_single. intros H.
  apply bind_Ok in H as (iss & Hiss%getitem_Ok & H).
  apply bind_Ok in H as (tick & Htick%getitem_Ok & H).
  apply bind_Ok in H as (ro & Hro%getitem_Ok & H).
  apply bind_Ok in H as (ceo & Hceo%getitem_Ok & H).
  apply bind_Ok in H as (company & Hcompany%getitem_Ok & H).
  apply bind_Ok in H as (ndt & Hndt%getitem_Ok & H).
  apply bind_Ok in H as (transactions & Htxs%getitem_Ok & H).
  apply bind_Ok in H as (groups & [Hcodes ->]%group_transaction_by_coding_Ok & H).
  apply bind_Ok in H as (st & Hloop & H). injection H as <-.
  split.
  - exists iss, ro, ndt, transactions. rewrite Htick, Hceo, Hcompany. done.
  - eapply groups_loop_Ok in Hloop as (news & -> & Hrec); [|done..].
    unfold transactions_of. rewrite Hndt. simpl. rewrite Htxs. done.
Qed.

Lemma extract_totals (doc : insider_trade) rs :
  extract doc = Ok rs →
  total_shares <$> rs
  = running_totals 0 ((λ c, group_shares c (transactions_of doc))
                        <$> qualifying_codes (transactions_of doc))
  ∧ total_amount_spent <$> rs
    = running_totals 0 ((λ c, group_amount_spent c (transactions_of doc))
                          <$> qualifying_codes (transactions_of doc)).
Proof.
  unfold extract, extract_insider_trades_info_single. intros H.
  apply bind_Ok in H as (iss & Hiss%getitem_Ok & H).
  apply bind_Ok in H as (tick & Htick%getitem_Ok & H).
  apply bind_Ok in H as (ro & Hro%getitem_Ok & H).
  apply bind_Ok in H as (ceo & Hceo%getitem_Ok & H).
  apply bind_Ok in H as (company & Hcompany%getitem_Ok & H).
  apply bind_Ok in H as (ndt & Hndt%getitem_Ok & H).
  apply bind_Ok in H as (transactions & Htxs%getitem_Ok & H).
  apply bind_Ok in H as (groups & [Hcodes ->]%group_transaction_by_coding_Ok & H).
  apply bind_Ok in H as (st & Hloop & H). injection H as <-.
  eapply groups_loop_totals in Hloop as (news & -> & Hshares & Hspent); [|done..].
  unfold transactions_of. rewrite Hndt. simpl. rewrite Htxs. done.
Qed.

Lemma extract_Ok_requirements (doc : insider_trade) rs :
  extract doc = Ok rs → extract_requirements doc = true.
Proof.
  intros [(iss & ro & ndt & transactions & Hiss & Hro & Hndt & Htxs & Htick & Hceo
           & Hcompany & Hcodes) Hrec]%extract_Ok.
  assert (transactions_of doc = transactions) as Htxs_of.
  { unfold transactions_of. rewrite Hndt. simpl. by rewrite Htxs. }
  rewrite Htxs_of in Hrec.
  assert (∀ t, t ∈ transactions → tx_qualifying t = true →
               tx_complete t = true ∧ record_fields_present doc iss transactions = true)
    as Hqual.
  { intros t Ht (c & Hc & Hq)%tx_qualifying_true.
    assert (c ∈ qualifying_codes transactions) as Hin.
    { apply elem_of_qualifying_codes. split; [done|]. by exists t. }
    apply list_elem_of_lookup in Hin as [i Hi].
    destruct (Forall2_lookup_l _ _ _ _ _ Hrec Hi) as (r & _ & Hr).
    destruct Hr as (_ & Hall & (iss' & Hiss' & Hfields) & _). rewrite Htxs_of in *.
    split.
    - rewrite forallb_elem_of in Hall. apply Hall. by apply elem_of_group_of.
    - congruence. }
  unfold extract_requirements. rewrite Hiss, Hro, Hndt, Htxs, Htick, Hceo, Hcompany, Hcodes.
  simpl. apply andb_true_iff. split.
  - apply forallb_elem_of. intros t Ht. destruct (tx_qualifying t) eqn:Hq; [|done].
    simpl. by apply Hqual.
  - destruct (existsb tx_qualifying transactions) eqn:Hex; [|done].
    apply existsb_elem_of in Hex as (t & Ht & Hq). simpl. by apply (Hqual t).
Qed.

Lemma extract_total (doc : insider_trade) :
  extract_requirements doc = true → ∃ rs, extract doc = Ok rs.
Proof.
  unfold extract_requirements.
  destruct (it_issuer doc) as [iss|] eqn:Hiss; [|done].
  destruct (it_reportingOwner doc) as [ro|] eqn:Hro; [|done].
  destruct (it_nonDerivativeTable doc) as [ndt|] eqn:Hndt; [|done].
  destruct (ndt_transactions ndt) as [transactions|] eqn:Htxs; [|done].
  intros H.
  apply andb_true_iff in H as [H Hex]. apply andb_true_iff in H as [H Himp].
  apply andb_true_iff in H as [H Hcodes]. apply andb_true_iff in H as [H Hcompany].
  apply andb_true_iff in H as [Htick Hceo].
  apply is_some_true in Htick as [tick Htick].
  apply is_some_true in Hceo as [ceo Hceo].
  apply is_some_true in Hcompany as [company Hcompany].
  destruct (group_transaction_by_coding_total _ Hcodes) as [groups Hgroups].
  unfold extract, extract_insider_trades_info_single.
  rewrite Hiss. simpl. rewrite Htick. simpl. rewrite Hro. simpl. rewrite Hceo. simpl.
  rewrite Hcompany. simpl. rewrite Hndt. simpl. rewrite Htxs. simpl.
  rewrite Hgroups. simpl.
  apply group_transaction_by_coding_Ok in Hgroups as [_ ->].
  match goal with
  | |- ∃ rs, for_each ?l ?body ?st ≫= _ = _ =>
      destruct (for_each_total (λ _, True) l body st) as (st' & -> & _); [|done|by eexists]
  end.
  intros st0 [c g] (c' & [= -> ->] & Hc')%list_elem_of_fmap _.
  apply first_occurrences_elem_of, elem_of_omap_code_of in Hc' as (t & Ht & Hc).
  destruct (qualifying c') eqn:Hq; cycle 1.
  { exists st0. split; [|done]. by apply group_body_skip. }
  rewrite forallb_elem_of in Himp.
  assert (existsb tx_qualifying transactions = true) as Hexists.
  { apply existsb_elem_of. exists t. split; [done|]. apply tx_qualifying_true. by exists c'. }
  rewrite Hexists in Hex. simpl in Hex.
  assert (∃ st1, group_body sectors_with_ticker market_cap_with_ticker doc tick ceo company
                   ndt transactions st0 (c', group_of c' transactions) = Ok st1)
    as [st1 Hst1]; [|by exists st1].
  eapply group_body_total; [|exact Hiss|exact Hex].
  apply forallb_elem_of. intros t' [Hc'' Ht']%elem_of_group_of.
  specialize (Himp t' Ht').
  assert (tx_qualifying t' = true) as Hq' by (apply tx_qualifying_true; by exists c').
  by rewrite Hq' in Himp.
Qed.

End Extract.

Section ExtractorProperties.
Context (sectors_with_ticker market_cap_with_ticker : dict string (list string)).

Let extract := extract_insider_trades_info_single sectors_with_ticker market_cap_with_ticker.

(** Every emitted record is the record of its own coding group. *)
Lemma extract_record (doc : insider_trade) rs r :
  extract doc = Ok rs → r ∈ rs →
  transaction_type r ∈ qualifying_codes (transactions_of doc)
  ∧ record_for doc (transaction_type r) r.
Proof.
  intros [_ Hrec]%extract_Ok [i Hi]%list_elem_of_lookup.
  destruct (Forall2_lookup_r _ _ _ _ _ Hrec Hi) as (c & Hc & Hr).
  assert (transaction_type r = c) as -> by apply Hr.
  split; [|done]. by eapply list_elem_of_lookup_2.
Qed.

Lemma qualifying_codes_NoDup (transactions : list transaction) :
  NoDup (qualifying_codes transactions).
Proof. apply NoDup_filter, first_occurrences_NoDup. Qed.

End ExtractorProperties.

(** ** The officer/trade filter *)

Lemma get_all_codings_loop (transactions : list transaction) (codings : list string) :
  is_ok (for_each transactions (λ codings transaction,
           c ← coding_code_of transaction; Ok (codings ++ [c])) codings)
  = forallb (λ t, is_some (code_of t)) transactions.
Proof.
  revert codings. induction transactions as [|t l IH]; intros codings; [done|].
  cbn [for_each forallb]. rewrite coding_code_of_code_of.
  destruct (code_of t) as [c|]; simpl; [apply IH|done].
Qed.

Lemma get_all_codings_is_ok (transactions : list transaction) :
  is_ok (get_all_codings transactions) = forallb (λ t, is_some (code_of t)) transactions.
Proof. apply get_all_codings_loop. Qed.




(** ** The pipeline of one filing and the receive loop *)

Lemma delays_before_recv_app (trace rest : list event) (s : nat) :
  forallb pipeline_event trace = true →
  delays_before_recv s (trace ++ rest) = delays_before_recv (s + slept trace) rest.
Proof.
  revert s. induction trace as [|ev trace IH]; intros s; simpl.
  - intros _. by rewrite Nat.add_0_r.
  - intros [Hev Htr]%andb_true_iff. destruct ev; try done; simpl; rewrite IH by done.
    + by rewrite Nat.add_assoc.
    + done.
    + done.
    + done.
Qed.

Section StreamLemmas.
Context (sectors_with_ticker market_cap_with_ticker : dict string (list string)).
Context (officer_titles : list string).
Context (get_data : string → result api_response).
Context (signal_notification insert_data_into_table : list normalized_trade → result unit).

Let pipeline := on_filings sectors_with_ticker market_cap_with_ticker officer_titles
                  get_data signal_notification insert_data_into_table.
Let pipelines := on_each_filing sectors_with_ticker market_cap_with_ticker
                   officer_titles get_data signal_notification insert_data_into_table.
Let loop := receive_loop sectors_with_ticker market_cap_with_ticker officer_titles
              get_data signal_notification insert_data_into_table.

(** The pipeline of a filing ends normally whatever happens in it, performs
    pipeline events only, and sleeps 15 time units when the filing is a
    candidate and not at all when it is not. *)
Lemma on_filings_trace (f : filing) :
  (pipeline f).2 = Ok tt
  ∧ forallb pipeline_event (pipeline f).1 = true
  ∧ slept (pipeline f).1 = if is_candidate f then 15%nat else 0%nat.
Proof.
  split; [done|].
  unfold pipeline, on_filings, is_candidate, try_except.
  destruct (bool_decide _ && bool_decide _); [|done].
  unfold fetch_insider_trades. cbn.
  destruct (get_data _) as [resp|e]; cbn; [|done].
  destruct (bool_decide (resp_total_value resp ≠ 0%Z)); cbn; [|done].
  destruct (resp_transactions resp) as [|data rest]; cbn; [done|].
  destruct (officer_trade_filter officer_titles data) as [[|]|e]; cbn; [|done|done].
  destruct (extract_insider_trades_info_single _ _ data) as [rs|e]; cbn; [|done].
  done.
Qed.

Lemma on_each_filing_trace (filings : list filing) :
  (pipelines filings).2 = Ok tt
  ∧ forallb pipeline_event (pipelines filings).1 = true
  ∧ slept (pipelines filings).1
    = (15 * length (filter (λ f, is_candidate f = true) filings))%nat.
Proof.
  induction filings as [|f filings (IH2 & IHp & IHs)]; [done|].
  destruct (on_filings_trace f) as (H2 & Hp & Hs).
  unfold pipelines in *. cbn [on_each_filing].
  unfold mbind, io_bind. fold pipeline. rewrite H2. cbn [fst snd].
  split; [done|]. split.
  - by rewrite forallb_app, Hp, IHp.
  - assert (∀ t1 t2, slept (t1 ++ t2) = (slept t1 + slept t2)%nat) as Happ.
    { induction t1 as [|[] t1 IHt]; intros t2; simpl; rewrite ?IHt; lia. }
    rewrite Happ, Hs, IHs. destruct (is_candidate f) eqn:Hc.
    + rewrite filter_cons_True by done. simpl. lia.
    + rewrite filter_cons_False by congruence. lia.
Qed.

(** The schedule of the receive loop: after a message, the next [recv] waits
    for the settle delays of all the candidate filings of that message. *)
Lemma receive_loop_delays (messages : list (list filing)) (s : nat) :
  delays_before_recv s (loop messages).1
  = s :: ((λ filings, 15 * length (filter (λ f, is_candidate f = true) filings))%nat
            <$> messages).
Proof.
  revert s. induction messages as [|filings messages IH]; intros s; [done|].
  destruct (on_each_filing_trace filings) as (H2 & Hp & Hs).
  unfold loop in *. cbn [receive_loop].
  unfold mbind, io_bind, emit. cbn [fst snd]. fold pipelines. rewrite H2.
  cbn [fst snd app delays_before_recv]. f_equal.
  rewrite delays_before_recv_app by done. rewrite IH, Hs. done.
Qed.

Lemma receive_loop_events (messages : list (list filing)) :
  (Stopped ∉ (loop messages).1) ∧ (Connect ∉ (loop messages).1).
Proof.
  assert (∀ tr, forallb pipeline_event tr = true → (Stopped ∉ tr) ∧ (Connect ∉ tr))
    as Hpipe.
  { intros tr Htr. rewrite forallb_elem_of in Htr.
    split; intros Hin%Htr; discriminate Hin. }
  induction messages as [|filings messages [IH1 IH2]].
  - split; intros Hin%list_elem_of_singleton; discriminate Hin.
  - destruct (on_each_filing_trace filings) as (H2 & Hp & _).
    destruct (Hpipe _ Hp) as [Hs Hc].
    unfold loop in *. cbn [receive_loop].
    unfold mbind, io_bind, emit. cbn [fst snd]. fold pipelines. rewrite H2.
    cbn [fst snd app].
    split; rewrite not_elem_of_cons, not_elem_of_app; done.
Qed.
End StreamLemmas.

(** ** Optional keys *)








(** * The trade extractor on the sample filings *)

(** Equalities between closed terms are decided by evaluation; records that
    hold rationals are compared through their decidable equality. *)
Ltac by_evaluation :=
  match goal with
  | |- ?P => apply (bool_decide_eq_true_1 P); vm_compute; reflexivity
  end.

(** The filing of the specification's worked example yields its record. *)
Lemma extract_single_purchase :
  sample_extract filing_single_purchase
  = Ok [record_single_purchase].
Proof. by_evaluation. Qed.

Lemma extract_gift_and_grant : sample_extract filing_gift_and_grant = Ok [].
Proof. reflexivity. Qed.

Lemma extract_unmarked_ownership :
  sample_extract filing_unmarked_ownership = Ok [record_unmarked_ownership].
Proof. by_evaluation. Qed.


Lemma extract_purchase_and_sale :
  sample_extract filing_purchase_and_sale
  = Ok [record_of_purchase; record_of_sale].
Proof. by_evaluation. Qed.

Lemma extract_without_optional_keys :
  sample_extract filing_without_optional_keys = Ok [record_without_optional_keys].
Proof. by_evaluation. Qed.

(** * Properties of the trade extractor *)


Section ExtractorClaims.
Context (sectors_with_ticker market_cap_with_ticker : dict string (list string)).

Let extract := extract_insider_trades_info_single sectors_with_ticker market_cap_with_ticker.



(** C5. Every record carries as [share_price] the price per share of the
    first transaction of the filing's table (0 when that transaction has no
    price), whatever the coding group of the record. *)
Theorem share_price_of_first_transaction (doc : insider_trade) rs r :
  extract doc = Ok rs → r ∈ rs →
  ∃ first rest, transactions_of doc = first :: rest ∧ share_price r = price_of first.
Proof.
  intros Hrs Hr.
  destruct (extract_record _ _ doc rs r Hrs Hr)
    as (_ & _ & _ & (iss & _ & Hfields) & _ & Hprice & _).
  destruct (transactions_of doc) as [|first rest]; [|by exists first, rest].
  unfold record_fields_present in Hfields. by rewrite andb_false_r in Hfields.
Qed.



(** C10. A transaction of a qualifying group whose ownership marker is
    anything but "I" goes to the direct partition: the loop over the group
    collects in ['D'] the post-transaction amounts of exactly these
    transactions, in filing order, and the last of them gives the direct part
    of [total_shares_after_transaction]. *)
Theorem unmarked_ownership_is_direct (doc : insider_trade) rs r :
  extract doc = Ok rs → r ∈ rs →
  (∀ totals grouped_transactions,
     for_each (group_of (transaction_type r) (transactions_of doc)) transaction_body
       (0, 0, {| gr_D := []; gr_indirect := [] |}) = Ok (totals, grouped_transactions) →
     gr_D grouped_transactions
     = omap tx_postTransactionAmounts
         (filter (λ t, ownership_of t ≠ Some "I")
                 (group_of (transaction_type r) (transactions_of doc))))
  ∧ total_shares_after_transaction r
    = last_shares (filter (λ t, ownership_of t ≠ Some "I")
                          (group_of (transaction_type r) (transactions_of doc)))
      + indirect_contribution (group_of (transaction_type r) (transactions_of doc))
      + holdings_contribution (holdings_of doc).
Proof.
  intros Hrs Hr. split.
  - intros [ts tas] g Hloop.
    by apply transactions_loop_Ok in Hloop as (_ & _ & _ & -> & _).
  - by destruct (extract_record _ _ doc rs r Hrs Hr) as (_ & _ & _ & _ & -> & _).
Qed.
End ExtractorClaims.

(** ** The properties at the sample filings *)



(** The three parts of the sum for that filing: 110 shares held directly,
    30 through the trust and 7 through the spouse, 1000 in the holdings. *)
Lemma contributions_direct_and_indirect :
  direct_contribution (group_of "P" (transactions_of filing_direct_and_indirect))
  = Qc_of_int 110
  ∧ indirect_contribution (group_of "P" (transactions_of filing_direct_and_indirect))
    = Qc_of_int 37
  ∧ holdings_contribution (holdings_of filing_direct_and_indirect) = Qc_of_int 1000.
Proof. repeat split; by_evaluation. Qed.

Lemma share_price_of_first_transaction_witness :
  sample_extract filing_purchase_and_sale = Ok [record_of_purchase; record_of_sale]
  ∧ record_of_sale ∈ [record_of_purchase; record_of_sale]
  ∧ ∃ first rest, transactions_of filing_purchase_and_sale = first :: rest
                  ∧ share_price record_of_sale = price_of first.
Proof.
  split; [exact extract_purchase_and_sale|]. split; [right; left|].
  apply (share_price_of_first_transaction sample_sectors sample_market_caps
           filing_purchase_and_sale _ record_of_sale extract_purchase_and_sale).
  right; left.
Defined.



Lemma unmarked_ownership_is_direct_witness :
  sample_extract filing_unmarked_ownership = Ok [record_unmarked_ownership]
  ∧ record_unmarked_ownership ∈ [record_unmarked_ownership]
  ∧ (∀ totals grouped_transactions,
       for_each (group_of "P" (transactions_of filing_unmarked_ownership)) transaction_body
         (0, 0, {| gr_D := []; gr_indirect := [] |}) = Ok (totals, grouped_transactions) →
       gr_D grouped_transactions
       = omap tx_postTransactionAmounts
           (filter (λ t, ownership_of t ≠ Some "I")
                   (group_of "P" (transactions_of filing_unmarked_ownership))))
  ∧ total_shares_after_transaction record_unmarked_ownership
    = last_shares (filter (λ t, ownership_of t ≠ Some "I")
                          (group_of "P" (transactions_of filing_unmarked_ownership)))
      + indirect_contribution (group_of "P" (transactions_of filing_unmarked_ownership))
      + holdings_contribution (holdings_of filing_unmarked_ownership).
Proof.
  split; [exact extract_unmarked_ownership|]. split; [left|].
  apply (unmarked_ownership_is_direct sample_sectors sample_market_caps
           filing_unmarked_ownership _ record_unmarked_ownership
           extract_unmarked_ownership).
  left.
Defined.

(** In that filing the second purchase, whose marker is empty, is the last
    of the direct partition: its 50 shares, not the 100 of the purchase marked
    "D", are the shares owned after the transactions. *)
Lemma unmarked_ownership_partition :
  filter (λ t, ownership_of t ≠ Some "I")
         (group_of "P" (transactions_of filing_unmarked_ownership))
  = [sample_transaction "P" "D" None 10 2 100; sample_transaction "P" "" None 5 3 50]
  ∧ total_shares_after_transaction record_unmarked_ownership = Qc_of_int 50.
Proof. split; reflexivity. Qed.

(** ** Totals of shares and of amount spent *)

(** C1. On a filing with a purchase of 10 shares at 2 followed by a sale of
    5 shares at 3, the record of the sale carries 15 shares and an amount of
    35: the 10 shares and the amount of 20 of the purchase are still in the
    two totals when the group of the sale is added.  The sums over the group of
    the sale alone are 5 and 15. *)
Theorem totals_carry_over_into_next_group :
  sample_extract filing_purchase_and_sale = Ok [record_of_purchase; record_of_sale]
  ∧ transaction_type record_of_sale = "S"
  ∧ total_shares record_of_sale = Qc_of_int 15
  ∧ group_shares "S" (transactions_of filing_purchase_and_sale) = Qc_of_int 5
  ∧ total_amount_spent record_of_sale = Qc_of_int 35
  ∧ group_amount_spent "S" (transactions_of filing_purchase_and_sale) = Qc_of_int 15.
Proof.
  split; [exact extract_purchase_and_sale|]. repeat split; by_evaluation.
Qed.

Section Totals.
Context (sectors_with_ticker market_cap_with_ticker : dict string (list string)).

Let extract := extract_insider_trades_info_single sectors_with_ticker market_cap_with_ticker.

(** The totals of the records are the running totals over the qualifying
    groups, in the order of the records. *)
Lemma totals_are_running_totals (doc : insider_trade) rs :
  extract doc = Ok rs →
  total_shares <$> rs
  = running_totals 0 ((λ c, group_shares c (transactions_of doc))
                        <$> qualifying_codes (transactions_of doc))
  ∧ total_amount_spent <$> rs
    = running_totals 0 ((λ c, group_amount_spent c (transactions_of doc))
                          <$> qualifying_codes (transactions_of doc)).
Proof. apply extract_totals. Qed.

(** The first record, hence the only record of a filing with one qualifying
    group, carries the totals of its own group. *)
Lemma totals_of_first_record (doc : insider_trade) r rs :
  extract doc = Ok (r :: rs) →
  total_shares r = group_shares (transaction_type r) (transactions_of doc)
  ∧ total_amount_spent r = group_amount_spent (transaction_type r) (transactions_of doc).
Proof.
  intros Hrs. destruct (extract_totals _ _ doc _ Hrs) as [Hshares Hspent].
  destruct (extract_Ok _ _ doc _ Hrs) as [_ Hrec].
  destruct (qualifying_codes (transactions_of doc)) as [|c codes].
  { by apply Forall2_nil_inv_l in Hrec. }
  apply Forall2_cons_1 in Hrec as [(Hc & _) _].
  rewrite !fmap_cons in Hshares, Hspent. cbn [running_totals] in Hshares, Hspent.
  injection Hshares as -> _. injection Hspent as -> _. rewrite Hc. split; ring.
Qed.
End Totals.

(** ** The filter on the sample filings *)

Lemma str_find_examples :
  str_find "President and CEO" "CEO" = 14%Z ∧ str_find "Chief Financial Officer" "CEO" = (-1)%Z.
Proof. split; reflexivity. Qed.

Lemma filter_accepts_single_purchase :
  officer_trade_filter sample_officer_titles filing_single_purchase = Ok true
  ∧ officer_trade_filter sample_officer_titles filing_gift_and_grant = Ok false.
Proof. split; reflexivity. Qed.

(** ** Missing fields *)



(** * The stream connection manager *)

Section ConnectionManager.
Context (sectors_with_ticker market_cap_with_ticker : dict string (list string)).
Context (officer_titles : list string).
Context (get_data : string → result api_response).
Context (signal_notification insert_data_into_table : list normalized_trade → result unit).

Let loop := receive_loop sectors_with_ticker market_cap_with_ticker officer_titles
              get_data signal_notification insert_data_into_table.
Let run := main_loop sectors_with_ticker market_cap_with_ticker officer_titles
             get_data signal_notification insert_data_into_table.
Let start := main sectors_with_ticker market_cap_with_ticker officer_titles
               get_data signal_notification insert_data_into_table.




(** After a session the failure of the connection is the first counted. *)
Lemma session_then_failure (m : manager) (a : attempt) (messages : list (list filing)) :
  at_connect a = Session messages → at_cancelled_escapes a = false →
  attempt_connection sectors_with_ticker market_cap_with_ticker officer_titles
    get_data signal_notification insert_data_into_table m a
  = (Connect :: StartPing :: (loop messages).1 ++ [CancelPing; Sleep 5],
     Continue {| retry_counter := 1; ping_task := false |}).
Proof. intros Ha Hb. unfold attempt_connection, handle_exception. by rewrite Ha, Hb. Qed.

Lemma attempt_connection_events (m : manager) (a : attempt) :
  Stopped ∉ (attempt_connection sectors_with_ticker market_cap_with_ticker officer_titles
               get_data signal_notification insert_data_into_table m a).1.
Proof.
  unfold attempt_connection, handle_exception.
  destruct (at_connect a) as [|messages].
  - destruct (ping_task m), (at_cancelled_escapes a); cbn [fst];
      rewrite !not_elem_of_cons; repeat split; try done; apply not_elem_of_nil.
  - destruct (receive_loop_events sectors_with_ticker market_cap_with_ticker
                officer_titles get_data signal_notification insert_data_into_table
                messages) as [Hs _].
    cbn [connected ping_task]. destruct (at_cancelled_escapes a); cbn [fst];
      rewrite !not_elem_of_cons, not_elem_of_app, !not_elem_of_cons;
      repeat split; try done; apply not_elem_of_nil.
Qed.




(** * The receive loop *)

(** C9, as the code has it.  The pipeline of every filing is awaited inside
    the receive loop: the [recv] that follows a message is issued only after
    the task has slept the 15 time units of the settle delay once for each
    candidate filing of that message. *)
Theorem settle_delays_precede_next_receive (messages : list (list filing)) :
  delays_before_recv 0 (loop messages).1
  = 0%nat :: ((λ filings, 15 * length (filter (λ f, is_candidate f = true) filings))%nat
               <$> messages).
Proof. apply receive_loop_delays. Qed.
End ConnectionManager.

(** ** The manager and the receive loop on sample streams *)


(** A session, then failures: the session has set the counter to 0 and its
    end is the first failure counted, so that the manager stops after nine
    failed attempts; the two attempts left in the script are not made. *)
Lemma sample_session_then_failures :
  sample_main ({| at_connect := Session []; at_cancelled_escapes := false |}
               :: replicate 11 connect_fails)
  = [Connect; StartPing; Recv; CancelPing; Sleep 5]
    ++ concat (replicate 9 [Connect; Sleep 5]) ++ [Stopped].
Proof. reflexivity. Qed.

(** A session whose ping task, once cancelled, raises past
    [except Exception]: [main] is left without backoff and without a further
    attempt. *)
Lemma sample_session_then_escape :
  sample_main [ {| at_connect := Session []; at_cancelled_escapes := true |};
                connect_fails ]
  = [Connect; StartPing; Recv; CancelPing].
Proof. reflexivity. Qed.

(** A message with one candidate filing, then an empty message: the whole
    pipeline of the filing runs between the two [recv]. *)
Lemma sample_receive_loop_trace :
  (sample_receive_loop [[sample_event]; []]).1
  = [Recv; Sleep 15; GetData "0001-24-000001";
     SignalNotification [set_link "https://www.sec.gov/f-1" record_single_purchase];
     InsertData [set_link "https://www.sec.gov/f-1" record_single_purchase];
     Recv; Recv].
Proof. by_evaluation. Qed.

(** The receipt of the second message is delayed by the settle delay of the
    filing of the first. *)
Lemma settle_delay_blocks_next_receive :
  delays_before_recv 0 (sample_receive_loop [[sample_event]; []]).1 = [0; 15; 0]%nat
  ∧ receipt_never_delayed (sample_receive_loop [[sample_event]; []]).1 = false.
Proof. split; vm_compute; reflexivity. Qed.

(** * Further properties *)

(** ** Returns *)


(** ** The next business day *)

Lemma get_next_business_day_first (is_working_day : Z → bool) (k : nat) :
  ∀ (date : Z) (fuel : nat),
    is_working_day (date + Z.of_nat k)%Z = true →
    (∀ j : nat, (j < k)%nat → is_working_day (date + Z.of_nat j)%Z = false) →
    (k < fuel)%nat →
    get_next_business_day is_working_day fuel date = Some (date + Z.of_nat k)%Z.
Proof.
  induction k as [|k IH]; intros date fuel Hk Hbefore Hfuel;
    (destruct fuel as [|fuel]; [lia|]); cbn [get_next_business_day].
  - rewrite Z.add_0_r in *. by rewrite Hk.
  - pose proof (Hbefore 0%nat ltac:(lia)) as H0. rewrite Z.add_0_r in H0.
    rewrite H0. simpl.
    rewrite (IH (date + 1)%Z fuel); [f_equal; lia| | |lia].
    + by replace (date + 1 + Z.of_nat k)%Z with (date + Z.of_nat (S k))%Z by lia.
    + intros j Hj. replace (date + 1 + Z.of_nat j)%Z with (date + Z.of_nat (S j))%Z by lia.
      apply Hbefore. lia.
Qed.

(** X2. When a working day lies [k] days after [date], or on [date] itself,
    [get_next_business_day] returns, within [k + 1] tests of its loop, the
    first working day on or after [date]: a working day, not before [date],
    not more than [k] days later, with no working day between [date] and
    it. *)
Theorem get_next_business_day_finds_first (is_working_day : Z → bool) (date : Z) (k : nat) :
  is_working_day (date + Z.of_nat k)%Z = true →
  ∃ day, get_next_business_day is_working_day (S k) date = Some day
         ∧ is_working_day day = true
         ∧ (date ≤ day ≤ date + Z.of_nat k)%Z
         ∧ ∀ d, (date ≤ d < day)%Z → is_working_day d = false.
Proof.
  intros Hk.
  assert (∃ k0 : nat, (k0 ≤ k)%nat ∧ is_working_day (date + Z.of_nat k0)%Z = true
                      ∧ ∀ j : nat, (j < k0)%nat →
                                   is_working_day (date + Z.of_nat j)%Z = false)
    as (k0 & Hle & Hk0 & Hbefore).
  { clear -Hk. revert date Hk. induction k as [|k IH]; intros date Hk.
    - exists 0%nat. split; [done|]. split; [done|]. intros j Hj. lia.
    - destruct (is_working_day date) eqn:Hd.
      + exists 0%nat. split; [lia|]. rewrite Z.add_0_r. split; [done|]. intros j Hj. lia.
      + destruct (IH (date + 1)%Z) as (k0 & Hle & Hk0 & Hbefore).
        { by replace (date + 1 + Z.of_nat k)%Z with (date + Z.of_nat (S k))%Z by lia. }
        exists (S k0). split; [lia|]. split.
        * by replace (date + Z.of_nat (S k0))%Z with (date + 1 + Z.of_nat k0)%Z by lia.
        * intros [|j] Hj; [by rewrite Z.add_0_r|].
          replace (date + Z.of_nat (S j))%Z with (date + 1 + Z.of_nat j)%Z by lia.
          apply Hbefore. lia. }
  exists (date + Z.of_nat k0)%Z. split; [|split; [done|split; [lia|]]].
  - apply get_next_business_day_first; [done|done|lia].
  - intros d Hd. replace d with (date + Z.of_nat (Z.to_nat (d - date)))%Z by lia.
    apply Hbefore. lia.
Qed.

(** ** Batches of filings *)

Lemma collect_results_fold {A} (futures : list (result A)) (acc : list A) :
  fold_left (λ result future,
    match future with
    | Ok rs => result ++ [rs]
    | Raise _ => result
    end) futures acc
  = acc ++ omap (λ future, match future with Ok rs => Some rs | Raise _ => None end) futures.
Proof.
  revert acc. induction futures as [|[rs|e] futures IH]; intros acc; csimpl.
  - by rewrite app_nil_r.
  - by rewrite IH, <- app_assoc.
  - apply IH.
Qed.

(** X3. [extract_insider_trades_info_parallel] never raises: it returns the
    results of the filings on which the extractor returns, which are the
    filings that hold every key the extractor reads, in the order of the
    input; the others are left out without a trace in the result. *)
Theorem extract_parallel_keeps_successes
    (sectors_with_ticker market_cap_with_ticker : dict string (list string))
    (data : list insider_trade) :
  Forall2 (λ rs doc,
             extract_insider_trades_info_single sectors_with_ticker market_cap_with_ticker doc
             = Ok rs)
          (extract_insider_trades_info_parallel sectors_with_ticker market_cap_with_ticker data)
          (filter (λ doc, extract_requirements doc = true) data).
Proof.
  unfold extract_insider_trades_info_parallel. rewrite collect_results_fold. simpl.
  induction data as [|doc data IH]; csimpl; [constructor|].
  destruct (extract_insider_trades_info_single _ _ doc) as [rs|e] eqn:Hdoc.
  - rewrite filter_cons_True by exact (extract_Ok_requirements _ _ _ _ Hdoc).
    by constructor.
  - rewrite filter_cons_False; [done|]. intros Hreq.
    apply (extract_total sectors_with_ticker market_cap_with_ticker) in Hreq as [rs Hrs].
    congruence.
Qed.

(** ** The groups of [group_transaction_by_coding] *)

Lemma dict_group_append_cons_ne {K V} `{EqDecision K} (k k' : K) (x : V) (v : list V)
    (d : dict K (list V)) :
  k ≠ k' → dict_group_append k x ((k', v) :: d) = (k', v) :: dict_group_append k x d.
Proof.
  intros Hne. unfold dict_group_append. cbv zeta. cbn [dict_contains].
  rewrite decide_False by done.
  destruct (dict_contains k d); cbn [dict_set dict_alter]; rewrite ?decide_False by done;
    cbn [dict_alter]; by rewrite ?decide_False by done.
Qed.

Lemma dict_group_append_perm {K V} `{EqDecision K} (k : K) (x : V) (d : dict K (list V)) :
  concat (dict_group_append k x d).*2 ≡ₚ concat d.*2 ++ [x].
Proof.
  induction d as [|[k' v] d IH].
  - unfold dict_group_append. cbn. by rewrite decide_True.
  - destruct (decide (k = k')) as [->|Hne].
    + unfold dict_group_append. cbv zeta. cbn [dict_contains]. rewrite decide_True by done.
      cbn [dict_alter]. rewrite decide_True by done. csimpl.
      rewrite <- !app_assoc. f_equiv. apply Permutation_app_comm.
    + rewrite dict_group_append_cons_ne by done. csimpl. by rewrite IH, app_assoc.
Qed.

Lemma fold_group_append_perm {K V} `{EqDecision K} (l : list (K * V)) (d : dict K (list V)) :
  concat (fold_left group_append_step l d).*2 ≡ₚ concat d.*2 ++ l.*2.
Proof.
  revert d. induction l as [|[k x] l IH]; intros d; csimpl.
  - by rewrite app_nil_r.
  - rewrite IH. unfold group_append_step at 1. simpl. rewrite dict_group_append_perm.
    by rewrite <- app_assoc.
Qed.

Lemma coded_pairs_all (transactions : list transaction) :
  forallb (λ t, is_some (code_of t)) transactions = true →
  (coded_pairs transactions).*2 = transactions.
Proof.
  unfold coded_pairs. induction transactions as [|t l IH]; [done|].
  cbn [forallb]. intros [[c Hc]%is_some_true Hl]%andb_true_iff.
  csimpl. rewrite Hc. csimpl. by rewrite IH.
Qed.

(** X4. The dictionary of [group_transaction_by_coding] is a partition of the
    table: its keys are distinct, its groups together hold every transaction
    exactly once, no group is empty, and the group of a code holds the
    transactions of that code in the order of the table. *)
Theorem group_transaction_by_coding_partitions (transactions : list transaction) g :
  group_transaction_by_coding transactions = Ok g →
  NoDup g.*1
  ∧ concat g.*2 ≡ₚ transactions
  ∧ Forall (λ item, item.2 ≠ []
                    ∧ item.2 = filter (λ t, code_of t = Some item.1) transactions) g.
Proof.
  intros Hg. pose proof Hg as [Hcodes ->]%group_transaction_by_coding_Ok.
  split; [|split].
  - rewrite <- list_fmap_compose.
    replace (fst ∘ _ <$> first_occurrences (omap code_of transactions))
      with (first_occurrences (omap code_of transactions)) by (by rewrite list_fmap_id).
    apply first_occurrences_NoDup.
  - apply group_loop_Ok in Hg as [_ Hfold]. rewrite Hfold, fold_group_append_perm.
    by rewrite coded_pairs_all.
  - apply Forall_fmap, Forall_forall. intros c Hc. simpl. split; [|done].
    apply first_occurrences_elem_of, elem_of_omap_code_of in Hc as (t & Ht & Hc).
    intros Hnil. assert (t ∈ group_of c transactions) as Hin by (by apply elem_of_group_of).
    rewrite Hnil in Hin. by apply elem_of_nil in Hin.
Qed.

(** ** The most common code *)

Lemma get_all_codings_loop_Ok (transactions : list transaction) (acc cs : list string) :
  for_each transactions (λ codings transaction,
    c ← coding_code_of transaction; Ok (codings ++ [c])) acc = Ok cs →
  cs = acc ++ omap code_of transactions
  ∧ forallb (λ t, is_some (code_of t)) transactions = true.
Proof.
  revert acc. induction transactions as [|t l IH]; intros acc; cbn [for_each].
  - intros [= <-]. by rewrite app_nil_r.
  - rewrite coding_code_of_code_of. destruct (code_of t) as [c|] eqn:Hc; [|done].
    simpl. intros [-> Hl]%IH. csimpl. rewrite Hc. csimpl. by rewrite <- app_assoc.
Qed.

Lemma get_all_codings_Ok (transactions : list transaction) (cs : list string) :
  get_all_codings transactions = Ok cs →
  cs = omap code_of transactions
  ∧ forallb (λ t, is_some (code_of t)) transactions = true.
Proof. apply get_all_codings_loop_Ok. Qed.

Lemma occurrences_snoc {A} `{EqDecision A} (x y : A) (l : list A) :
  occurrences x (l ++ [y]) = (occurrences x l + if decide (y = x) then 1 else 0)%nat.
Proof.
  unfold occurrences. rewrite filter_app, length_app. f_equal.
  destruct (decide (y = x)).
  - by rewrite filter_cons_True.
  - by rewrite filter_cons_False.
Qed.

Lemma occurrences_not_elem_of {A} `{EqDecision A} (x : A) (l : list A) :
  x ∉ l → occurrences x l = 0%nat.
Proof.
  intros Hx. unfold occurrences. rewrite filter_none; [done|].
  apply Forall_forall. intros y Hy ->. done.
Qed.

Lemma dict_lookup_fmap {K V} `{EqDecision K} (k : K) (g : K → V) (keys : list K) :
  dict_lookup k ((λ k', (k', g k')) <$> keys) = if decide (k ∈ keys) then Some (g k) else None.
Proof.
  induction keys as [|k0 keys IH]; [done|]. rewrite fmap_cons. cbn [dict_lookup].
  destruct (decide (k = k0)) as [->|Hne].
  - rewrite decide_True; [done|left].
  - rewrite IH. destruct (decide (k ∈ keys)) as [Hin|Hin].
    + rewrite decide_True; [done|by right].
    + rewrite decide_False; [done|]. by intros [?|?]%elem_of_cons.
Qed.

Lemma dict_set_alter {K V} `{EqDecision K} (k : K) (v : V) (d : dict K V) :
  k ∈ d.*1 → dict_set k v d = dict_alter (λ _, v) k d.
Proof.
  induction d as [|[k0 v0] d IH]; [by intros ?%elem_of_nil|].
  cbn [dict_set dict_alter]. intros Hin. destruct (decide (k = k0)) as [->|Hne]; [done|].
  rewrite IH; [done|]. csimpl in Hin. by apply elem_of_cons in Hin as [?|?].
Qed.

Lemma fmap_pair_keys {K V} (g : K → V) (keys : list K) :
  ((λ k, (k, g k)) <$> keys).*1 = keys.
Proof. rewrite <- list_fmap_compose. apply list_fmap_id. Qed.

(** [Counter] counts every element, in the order of first occurrence. *)
Lemma Counter_counts (l : list string) :
  Counter l = (λ c, (c, occurrences c l)) <$> first_occurrences l.
Proof.
  induction l as [|c l IH] using rev_ind; [done|].
  unfold Counter in *. rewrite fold_left_app. cbn [fold_left]. rewrite IH.
  rewrite first_occurrences_snoc. unfold counter_add, add_key.
  rewrite dict_lookup_fmap. case_bool_decide as Hc.
  - rewrite decide_True by done. cbn [default].
    rewrite dict_set_alter by (by rewrite fmap_pair_keys).
    rewrite dict_alter_fmap by apply first_occurrences_NoDup.
    apply list_fmap_ext. intros _ k _. f_equal. rewrite occurrences_snoc.
    destruct (decide (k = c)) as [->|Hne].
    + by rewrite decide_True.
    + rewrite decide_False by done. lia.
  - rewrite decide_False by done. cbn [default].
    rewrite dict_set_fresh by (by rewrite fmap_pair_keys).
    rewrite fmap_app. f_equal.
    + apply list_fmap_ext. intros _ k Hk%list_elem_of_lookup_2. f_equal.
      rewrite occurrences_snoc, decide_False; [lia|]. by intros ->.
    + csimpl. do 2 f_equal. rewrite occurrences_snoc, decide_True by done.
      rewrite occurrences_not_elem_of; [done|]. by rewrite <- first_occurrences_elem_of.
Qed.

(** The first of the keys with the largest count. *)
Lemma max_by_count_first (n : string → nat) (k0 : string) (keys : list string) :
  ∃ c pre post,
    max_by_count (k0, n k0) ((λ k, (k, n k)) <$> keys) = (c, n c)
    ∧ k0 :: keys = pre ++ c :: post
    ∧ (∀ k, k ∈ pre → (n k < n c)%nat)
    ∧ (∀ k, k ∈ k0 :: keys → (n k ≤ n c)%nat).
Proof.
  revert k0. induction keys as [|k keys IH]; intros k0.
  - exists k0, [], []. split; [done|]. split; [done|]. split.
    + by intros k ?%elem_of_nil.
    + intros k ->%list_elem_of_singleton. done.
  - rewrite fmap_cons. cbn [max_by_count snd]. case_bool_decide as Hlt.
    + destruct (IH k) as (c & pre & post & -> & Hsplit & Hpre & Hall).
      exists c, (k0 :: pre), post. split; [done|]. split; [by rewrite Hsplit|].
      assert (n k ≤ n c)%nat as Hk by (apply Hall; left).
      split.
      * intros k' [->|Hk']%elem_of_cons; [lia|by apply Hpre].
      * intros k' [->|Hk']%elem_of_cons; [lia|by apply Hall].
    + destruct (IH k0) as (c & pre & post & -> & Hsplit & Hpre & Hall).
      assert (n k0 ≤ n c)%nat as Hk0 by (apply Hall; left).
      destruct pre as [|p pre]; simpl in Hsplit.
      * injection Hsplit as <- <-.
        exists k0, [], (k :: keys). split; [done|]. split; [done|]. split.
        -- by intros k' ?%elem_of_nil.
        -- intros k' [->|[->|Hk']%elem_of_cons]%elem_of_cons; [done|lia|].
           apply Hall. by right.
      * injection Hsplit as <- ->.
        exists c, (k0 :: k :: pre), post. split; [done|]. split; [done|].
        assert (n k0 < n c)%nat as Hp by (apply Hpre; left).
        split.
        -- intros k' [->|[->|Hk']%elem_of_cons]%elem_of_cons; [done|lia|].
           apply Hpre. by right.
        -- intros k' [->|[->|Hk']%elem_of_cons]%elem_of_cons; [lia|lia|].
           apply Hall. by right.
Qed.

Lemma fold_add_key_prefix {K} `{EqDecision K} (l acc : list K) :
  ∃ rest, fold_left add_key l acc = acc ++ rest.
Proof.
  revert acc. induction l as [|x l IH]; intros acc; cbn [fold_left].
  - exists []. by rewrite app_nil_r.
  - unfold add_key at 2. case_bool_decide; [apply IH|].
    destruct (IH (acc ++ [x])) as [rest ->]. exists (x :: rest). by rewrite <- app_assoc.
Qed.

Lemma first_occurrences_split {K} `{EqDecision K} (l1 l2 : list K) (c : K) :
  c ∉ l1 → ∃ rest, first_occurrences (l1 ++ c :: l2) = first_occurrences l1 ++ c :: rest.
Proof.
  intros Hc. unfold first_occurrences. rewrite fold_left_app. cbn [fold_left].
  unfold add_key at 2. rewrite bool_decide_eq_false_2.
  - destruct (fold_add_key_prefix l2 (fold_left add_key l1 [] ++ [c])) as [rest ->].
    exists rest. by rewrite <- app_assoc.
  - fold (first_occurrences l1). by rewrite first_occurrences_elem_of.
Qed.

Lemma split_at_unique {A} (x : A) (l1 l2 l1' l2' : list A) :
  x ∉ l1 → x ∉ l1' → l1 ++ x :: l2 = l1' ++ x :: l2' → l1 = l1'.
Proof.
  revert l1'. induction l1 as [|y l1 IH]; intros [|y' l1'] Hx Hx' Heq; simpl in Heq.
  - done.
  - injection Heq as -> _. destruct Hx'. left.
  - injection Heq as -> _. destruct Hx. left.
  - injection Heq as -> Heq. f_equal. apply (IH l1'); [| |done].
    + intros ?. apply Hx. by right.
    + intros ?. apply Hx'. by right.
Qed.

Lemma first_with_code (c : string) (transactions : list transaction) :
  c ∈ omap code_of transactions →
  ∃ pre t post, transactions = pre ++ t :: post ∧ code_of t = Some c
                ∧ c ∉ omap code_of pre.
Proof.
  induction transactions as [|t l IH]; csimpl; [by intros ?%elem_of_nil|].
  intros Hc. destruct (decide (code_of t = Some c)) as [Ht|Ht].
  - exists [], t, l. split; [done|]. split; [done|]. apply not_elem_of_nil.
  - destruct IH as (pre & t' & post & -> & Ht' & Hpre).
    { destruct (code_of t) as [c'|]; [|done].
      apply elem_of_cons in Hc as [->|?]; done. }
    exists (t :: pre), t', post. split; [done|]. split; [done|]. csimpl.
    destruct (code_of t) as [c'|]; [|done]. apply not_elem_of_cons. split; [congruence|done].
Qed.

Lemma occurrences_codes (c : string) (transactions : list transaction) :
  occurrences c (omap code_of transactions) = length (group_of c transactions).
Proof.
  unfold occurrences, group_of. induction transactions as [|t l IH]; [done|]. csimpl.
  destruct (code_of t) as [c'|] eqn:Hc.
  - destruct (decide (c' = c)) as [->|Hne].
    + rewrite !filter_cons_True by done. simpl. by rewrite IH.
    + rewrite !filter_cons_False by congruence. done.
  - rewrite filter_cons_False by (by rewrite Hc). done.
Qed.

(** X5. [get_transaction_coding] returns [None] on an empty table only.
    Otherwise the code it returns is the code of a transaction of the table,
    no code has more transactions than it, and every code that occurs in the
    table before it has fewer: among the codes with the most transactions it
    is the one that occurs first. *)
Theorem get_transaction_coding_most_common (transactions : list transaction) o :
  get_transaction_coding transactions = Ok o →
  match o with
  | None => transactions = []
  | Some c =>
      ∃ pre t post,
        transactions = pre ++ t :: post ∧ code_of t = Some c
        ∧ (∀ c', length (group_of c' transactions) ≤ length (group_of c transactions))%nat
        ∧ (∀ t' c', t' ∈ pre → code_of t' = Some c' →
                    (length (group_of c' transactions)
                     < length (group_of c transactions))%nat)
  end.
Proof.
  unfold get_transaction_coding. intros (cs & [-> Hall]%get_all_codings_Ok & H)%bind_Ok.
  rewrite Counter_counts in H. set (codes := omap code_of transactions) in *.
  destruct (first_occurrences codes) as [|k0 keys] eqn:Hkeys.
  - injection H as <-. destruct transactions as [|t l]; [done|].
    cbn [forallb] in Hall. apply andb_true_iff in Hall as [[c Hc]%is_some_true _].
    assert (c ∈ first_occurrences codes) as Hin.
    { apply first_occurrences_elem_of. unfold codes. csimpl. rewrite Hc. left. }
    rewrite Hkeys in Hin. by apply elem_of_nil in Hin.
  - rewrite fmap_cons in H. cbn [most_common_1] in H.
    destruct (max_by_count_first (λ c, occurrences c codes) k0 keys)
      as (c & kpre & kpost & Hmax & Hsplit & Hpre & Hmost).
    rewrite Hmax in H. injection H as <-.
    assert (c ∈ codes) as Hc.
    { apply first_occurrences_elem_of. rewrite Hkeys, Hsplit.
      apply elem_of_app. right. left. }
    destruct (first_with_code c transactions Hc) as (pre & t & post & Htxs & Ht & Hfresh).
    exists pre, t, post. split; [done|]. split; [done|].
    assert (∀ c', (occurrences c' codes ≤ occurrences c codes)%nat) as Hle.
    { intros c'. destruct (decide (c' ∈ codes)) as [Hin|Hout].
      - apply Hmost. by rewrite <- Hkeys, first_occurrences_elem_of.
      - rewrite occurrences_not_elem_of by done. lia. }
    unfold codes in *. split.
    + intros c'. rewrite <- !occurrences_codes. apply Hle.
    + intros t' c' Ht' Hc'. rewrite <- !occurrences_codes. apply Hpre.
      assert (omap code_of transactions = omap code_of pre ++ c :: omap code_of post)
        as Hcodes.
      { rewrite Htxs, omap_app. csimpl. by rewrite Ht. }
      destruct (first_occurrences_split (omap code_of pre) (omap code_of post) c Hfresh)
        as [rest Hfirst].
      rewrite <- Hcodes, Hkeys, Hsplit in Hfirst.
      assert (kpre = first_occurrences (omap code_of pre)) as ->.
      { eapply (split_at_unique c); [| |exact Hfirst].
        - intros Hin. specialize (Hpre c Hin). lia.
        - by rewrite first_occurrences_elem_of. }
      apply first_occurrences_elem_of, elem_of_omap_code_of. by exists t'.
Qed.

(** ** More on the records of the extractor *)

Lemma at_most_two {A} (l : list A) (a b : A) :
  NoDup l → (∀ x, x ∈ l → x = a ∨ x = b) → (length l ≤ 2)%nat.
Proof.
  intros Hnd Hl. destruct l as [|x [|y [|z l]]]; simpl; try lia.
  exfalso. apply NoDup_cons in Hnd as [Hx Hnd]. apply NoDup_cons in Hnd as [Hy _].
  apply not_elem_of_cons in Hx as [Hxy Hx]. apply not_elem_of_cons in Hx as [Hxz _].
  apply not_elem_of_cons in Hy as [Hyz _].
  assert (x = a ∨ x = b) as Hx' by (apply Hl; left).
  assert (y = a ∨ y = b) as Hy' by (apply Hl; right; left).
  assert (z = a ∨ z = b) as Hz' by (apply Hl; right; right; left).
  destruct Hx' as [->| ->], Hy' as [->| ->], Hz' as [->| ->]; congruence.
Qed.


Section MoreOnRecords.
Context (sectors_with_ticker market_cap_with_ticker : dict string (list string)).

Let extract := extract_insider_trades_info_single sectors_with_ticker market_cap_with_ticker.

(** X6. The extractor emits one record for each of the codes "P" and "S"
    that the table holds, in the order in which these codes first occur in
    the table: at most two records, of distinct types, and none of another
    type. *)
Theorem one_record_for_each_qualifying_code (doc : insider_trade) rs :
  extract doc = Ok rs →
  transaction_type <$> rs = qualifying_codes (transactions_of doc)
  ∧ NoDup (transaction_type <$> rs)
  ∧ (length rs ≤ 2)%nat
  ∧ ∀ c, c ∈ transaction_type <$> rs
         ↔ (c = "P" ∨ c = "S") ∧ ∃ t, t ∈ transactions_of doc ∧ code_of t = Some c.
Proof.
  intros [_ Hrec]%extract_Ok.
  assert (transaction_type <$> rs = qualifying_codes (transactions_of doc)) as Htypes.
  { induction Hrec as [|c r codes rs' Hr _ IH]; [done|]. csimpl. f_equal; [apply Hr|done]. }
  assert (∀ c, c ∈ qualifying_codes (transactions_of doc)
               ↔ (c = "P" ∨ c = "S") ∧ ∃ t, t ∈ transactions_of doc ∧ code_of t = Some c)
    as Hiff.
  { intros c. rewrite elem_of_qualifying_codes. unfold qualifying.
    rewrite bool_decide_eq_true, !elem_of_cons, elem_of_nil. tauto. }
  split; [done|]. rewrite Htypes. split; [apply qualifying_codes_NoDup|]. split; [|done].
  rewrite <- (length_fmap transaction_type), Htypes.
  apply (at_most_two _ "P" "S"); [apply qualifying_codes_NoDup|].
  intros c Hc. by apply Hiff in Hc as [? _].
Qed.


Lemma group_body_identifies (doc : insider_trade) (iss : issuer) (ro : reporting_owner)
    (ndt : non_derivative_table) (transactions : list transaction)
    (tick ceo company : string) st st' item :
  it_issuer doc = Some iss → it_reportingOwner doc = Some ro →
  is_tradingSymbol iss = Some tick → ro_name ro = Some ceo → is_name iss = Some company →
  Forall (record_identifies sectors_with_ticker market_cap_with_ticker doc) (lc_results st) →
  group_body sectors_with_ticker market_cap_with_ticker doc tick ceo company ndt
    transactions st item = Ok st' →
  Forall (record_identifies sectors_with_ticker market_cap_with_ticker doc) (lc_results st').
Proof.
  intros Hiss Hro Htick Hceo Hcompany Hst. destruct item as [c g]. unfold group_body.
  destruct (bool_decide (c ∈ ["P"; "S"])); [|by intros [= <-]]. intros H.
  apply bind_Ok in H as ([[ts tas] gt] & _ & H).
  apply bind_Ok in H as (date & Hdate%getitem_Ok & H).
  apply bind_Ok in H as (first & _ & H).
  apply bind_Ok in H as (am0 & _ & H).
  apply bind_Ok in H as (chg & _ & H).
  apply bind_Ok in H as (id & Hid%getitem_Ok & H).
  apply bind_Ok in H as (iss' & Hiss'%getitem_Ok & H).
  apply bind_Ok in H as (cik_ & Hcik%getitem_Ok & H).
  apply bind_Ok in H as (acc & Hacc%getitem_Ok & H).
  apply bind_Ok in H as (per & Hper%getitem_Ok & H).
  injection H as <-. cbn [lc_results]. apply Forall_app. split; [done|].
  apply Forall_singleton. exists iss, ro. simpl.
  assert (iss' = iss) as -> by congruence. by repeat split.
Qed.

Lemma extract_identifies (doc : insider_trade) rs r :
  extract doc = Ok rs → r ∈ rs →
  record_identifies sectors_with_ticker market_cap_with_ticker doc r.
Proof.
  unfold extract, extract_insider_trades_info_single. intros H Hr.
  apply bind_Ok in H as (iss & Hiss%getitem_Ok & H).
  apply bind_Ok in H as (tick & Htick%getitem_Ok & H).
  apply bind_Ok in H as (ro & Hro%getitem_Ok & H).
  apply bind_Ok in H as (ceo & Hceo%getitem_Ok & H).
  apply bind_Ok in H as (company & Hcompany%getitem_Ok & H).
  apply bind_Ok in H as (ndt & _ & H).
  apply bind_Ok in H as (transactions & _ & H).
  apply bind_Ok in H as (groups & _ & H).
  apply bind_Ok in H as (st & Hloop & H). injection H as <-.
  revert r Hr. apply Forall_forall.
  refine (for_each_invariant
            (λ st, Forall (record_identifies sectors_with_ticker market_cap_with_ticker doc)
                          (lc_results st)) groups _ _ st _ _ Hloop).
  - intros st0 item st1 _ Hst0 Hbody. eapply group_body_identifies; eauto.
  - apply Forall_nil_2.
Qed.

Lemma record_type_qualifying (doc : insider_trade) rs r :
  extract doc = Ok rs → r ∈ rs → transaction_type r = "P" ∨ transaction_type r = "S".
Proof.
  intros [_ Hrec]%extract_Ok Hr.
  assert (transaction_type r ∈ qualifying_codes (transactions_of doc)) as Hin.
  { apply list_elem_of_lookup_1 in Hr as [i Hi].
    destruct (Forall2_lookup_r _ _ _ _ _ Hrec Hi) as (c & Hc & Hr).
    destruct Hr as [-> _]. by eapply list_elem_of_lookup_2. }
  apply elem_of_qualifying_codes in Hin as [Hq _]. unfold qualifying in Hq.
  apply bool_decide_eq_true in Hq. rewrite !elem_of_cons, elem_of_nil in Hq. tauto.
Qed.

(** X8. Every record carries the identification of its filing: the id, the
    ticker, the CIK, the accession number, the period of report, the filing
    time, the names of the owner and of the issuer and their combination, the
    link of the filing; the sector and the market capitalisation are those
    that the tables give for the ticker, and the three returns are null. *)
Theorem records_identify_filing (doc : insider_trade) rs r :
  extract doc = Ok rs → r ∈ rs →
  record_identifies sectors_with_ticker market_cap_with_ticker doc r.
Proof. apply extract_identifies. Qed.
End MoreOnRecords.

(** ** The properties on the sample data *)

Lemma get_next_business_day_finds_first_witness :
  sample_calendar (5 + Z.of_nat 2)%Z = true
  ∧ ∃ day, get_next_business_day sample_calendar 3 5 = Some day
           ∧ sample_calendar day = true
           ∧ (5 ≤ day ≤ 5 + Z.of_nat 2)%Z
           ∧ ∀ d, (5 ≤ d < day)%Z → sample_calendar d = false.
Proof.
  split; [reflexivity|].
  apply (get_next_business_day_finds_first sample_calendar 5 2). reflexivity.
Defined.

Lemma group_table_with_tie :
  group_transaction_by_coding table_with_tie = Ok groups_with_tie.
Proof. by_evaluation. Qed.

Lemma group_transaction_by_coding_partitions_witness :
  group_transaction_by_coding table_with_tie = Ok groups_with_tie
  ∧ NoDup groups_with_tie.*1
  ∧ concat groups_with_tie.*2 ≡ₚ table_with_tie
  ∧ Forall (λ item, item.2 ≠ []
                    ∧ item.2 = filter (λ t, code_of t = Some item.1) table_with_tie)
           groups_with_tie.
Proof.
  split; [exact group_table_with_tie|].
  apply (group_transaction_by_coding_partitions table_with_tie groups_with_tie).
  exact group_table_with_tie.
Defined.

Lemma get_transaction_coding_most_common_witness :
  get_transaction_coding table_with_tie = Ok (Some "S")
  ∧ ∃ pre t post,
      table_with_tie = pre ++ t :: post ∧ code_of t = Some "S"
      ∧ (∀ c', length (group_of c' table_with_tie) ≤ length (group_of "S" table_with_tie))%nat
      ∧ (∀ t' c', t' ∈ pre → code_of t' = Some c' →
                  (length (group_of c' table_with_tie)
                   < length (group_of "S" table_with_tie))%nat).
Proof.
  split; [vm_compute; reflexivity|].
  apply (get_transaction_coding_most_common table_with_tie (Some "S")).
  vm_compute. reflexivity.
Defined.

Lemma one_record_for_each_qualifying_code_witness :
  sample_extract filing_purchase_and_sale = Ok [record_of_purchase; record_of_sale]
  ∧ transaction_type <$> [record_of_purchase; record_of_sale]
    = qualifying_codes (transactions_of filing_purchase_and_sale)
  ∧ NoDup (transaction_type <$> [record_of_purchase; record_of_sale])
  ∧ (length [record_of_purchase; record_of_sale] ≤ 2)%nat
  ∧ ∀ c, c ∈ transaction_type <$> [record_of_purchase; record_of_sale]
         ↔ (c = "P" ∨ c = "S")
           ∧ ∃ t, t ∈ transactions_of filing_purchase_and_sale ∧ code_of t = Some c.
Proof.
  split; [exact extract_purchase_and_sale|].
  apply (one_record_for_each_qualifying_code sample_sectors sample_market_caps
           filing_purchase_and_sale).
  exact extract_purchase_and_sale.
Defined.


Lemma records_identify_filing_witness :
  sample_extract filing_purchase_and_sale = Ok [record_of_purchase; record_of_sale]
  ∧ record_of_sale ∈ [record_of_purchase; record_of_sale]
  ∧ record_identifies sample_sectors sample_market_caps filing_purchase_and_sale
      record_of_sale.
Proof.
  split; [exact extract_purchase_and_sale|]. split; [right; left|].
  apply (records_identify_filing sample_sectors sample_market_caps
           filing_purchase_and_sale [record_of_purchase; record_of_sale] record_of_sale).
  - exact extract_purchase_and_sale.
  - right; left.
Defined.

(** ** More on the stream client *)

Section MoreOnStream.
Context (sectors_with_ticker market_cap_with_ticker : dict string (list string)).
Context (officer_titles : list string).
Context (get_data : string → result api_response).
Context (signal_notification insert_data_into_table : list normalized_trade → result unit).

Let extract := extract_insider_trades_info_single sectors_with_ticker market_cap_with_ticker.
Let pipeline := on_filings sectors_with_ticker market_cap_with_ticker officer_titles
                  get_data signal_notification insert_data_into_table.

(** X9. The filter of [fetch_insider_trades] accepts a filing exactly when
    the filer is marked as an officer, the title holds "CEO" or is one of the
    listed titles, every transaction of the table carries a code, and one of
    them carries "P" or "S".  When the filer is not marked as an officer the
    filter rejects the filing without reading the table. *)
Theorem officer_trade_filter_accepts (data : insider_trade) :
  (officer_trade_filter officer_titles data = Ok true
   ↔ is_officer_of data = true
     ∧ (str_find (officer_title_of data) "CEO" ≠ (-1)%Z
        ∨ officer_title_of data ∈ officer_titles)
     ∧ ∃ transactions,
         it_nonDerivativeTable data ≫= ndt_transactions = Some transactions
         ∧ (∀ t, t ∈ transactions → ∃ c, code_of t = Some c)
         ∧ ∃ t, t ∈ transactions ∧ (code_of t = Some "P" ∨ code_of t = Some "S"))
  ∧ (is_officer_of data = false → officer_trade_filter officer_titles data = Ok false).
Proof.
  unfold officer_trade_filter. fold (is_officer_of data). fold (officer_title_of data).
  split; [|by intros ->].
  destruct (is_officer_of data); [|split; [done|by intros [? _]]].
  split.
  - intros H.
    apply bind_Ok in H as (ndt & Hndt%getitem_Ok & H).
    apply bind_Ok in H as (transactions & Htxs%getitem_Ok & H).
    apply bind_Ok in H as (codings & [-> Hall]%get_all_codings_Ok & H).
    injection H as H. apply andb_true_iff in H as [Htitle Hcode].
    split; [done|]. split.
    { apply orb_true_iff in Htitle as [H|H]; apply bool_decide_eq_true in H; [by left|by right]. }
    exists transactions. split; [by rewrite Hndt|]. split.
    { intros t Ht. apply is_some_true. by apply (proj1 (forallb_elem_of _ _) Hall). }
    apply orb_true_iff in Hcode as [H|H]; apply bool_decide_eq_true in H;
      apply elem_of_omap_code_of in H as (t & Ht & Hc); exists t; eauto.
  - intros (_ & Htitle & transactions & Htxs & Hall & t & Ht & Hc).
    destruct (it_nonDerivativeTable data) as [ndt|]; [|done]. simpl in Htxs. simpl.
    rewrite Htxs. simpl.
    destruct (get_all_codings transactions) as [codings|e] eqn:Hcodings.
    + apply get_all_codings_Ok in Hcodings as [-> _]. simpl. f_equal.
      apply andb_true_iff. split; apply orb_true_iff.
      * destruct Htitle as [H|H]; [left|right]; by apply bool_decide_eq_true.
      * destruct Hc as [Hc|Hc]; [left|right]; apply bool_decide_eq_true,
          elem_of_omap_code_of; eauto.
    + pose proof (get_all_codings_is_ok transactions) as Hok. rewrite Hcodings in Hok.
      simpl in Hok. symmetry in Hok. apply not_true_iff_false in Hok. destruct Hok.
      apply forallb_elem_of. intros t' Ht'. apply is_some_true. by apply Hall.
Qed.

Lemma accepted_filing_has_records (data : insider_trade) rs :
  officer_trade_filter officer_titles data = Ok true → extract data = Ok rs → rs ≠ [].
Proof.
  intros (_ & _ & transactions & Htxs & _ & t & Ht & Hc)%officer_trade_filter_accepts.
  intros [_ Hrec]%extract_Ok.
  assert (∃ c, c ∈ qualifying_codes (transactions_of data)) as [c Hin].
  { unfold transactions_of. rewrite Htxs. simpl.
    destruct Hc as [Hc|Hc]; eexists; apply elem_of_qualifying_codes;
      (split; [|by eauto]); reflexivity. }
  intros ->. apply Forall2_nil_inv_r in Hrec. rewrite Hrec in Hin.
  by apply elem_of_nil in Hin.
Qed.

(** X10. A filing of the stream reaches the notification or the storage
    service only as a form 4 (or 4/A) with an accession number, for which the
    API returned a first filing that the filter accepts and from which the
    extractor returns.  Both services then receive the same batch, the
    notification first: the records of the extractor, never none, each with
    the link of the stream event in place of its own; and nothing else
    happens in the pipeline besides the settle delay and the query. *)
Theorem fan_out_only_for_accepted_filings (f : filing) (batch : list normalized_trade) :
  SignalNotification batch ∈ (pipeline f).1 ∨ InsertData batch ∈ (pipeline f).1 →
  is_candidate f = true
  ∧ ∃ resp data rest rs,
      get_data (default "" (fl_accessionNo f)) = Ok resp
      ∧ resp_total_value resp ≠ 0%Z
      ∧ resp_transactions resp = data :: rest
      ∧ officer_trade_filter officer_titles data = Ok true
      ∧ extract data = Ok rs
      ∧ batch = set_link (default "" (fl_linkToFilingDetails f)) <$> rs
      ∧ batch ≠ []
      ∧ Forall (λ d, link d = Some (default "" (fl_linkToFilingDetails f))) batch
      ∧ (pipeline f).1
        = [Sleep 15; GetData (default "" (fl_accessionNo f));
           SignalNotification batch; InsertData batch].
Proof.
  unfold pipeline, on_filings, is_candidate, try_except. cbn [fst].
  destruct (bool_decide _ && bool_decide _).
  2:{ cbn. rewrite !elem_of_nil. tauto. }
  unfold fetch_insider_trades. cbn.
  destruct (get_data _) as [resp|e] eqn:Hresp; cbn.
  2:{ rewrite !elem_of_cons, !elem_of_nil. intros [[|[|]]|[|[|]]]; done. }
  case_bool_decide as Htotal; cbn.
  2:{ rewrite !elem_of_cons, !elem_of_nil. intros [[|[|]]|[|[|]]]; done. }
  destruct (resp_transactions resp) as [|data rest] eqn:Hdata; cbn.
  { rewrite !elem_of_cons, !elem_of_nil. intros [[|[|]]|[|[|]]]; done. }
  destruct (officer_trade_filter officer_titles data) as [[|]|e] eqn:Hfilter; cbn.
  2,3: rewrite !elem_of_cons, !elem_of_nil; intros [[|[|]]|[|[|]]]; done.
  destruct (extract_insider_trades_info_single _ _ data) as [rs|e] eqn:Hrs; cbn.
  2:{ rewrite !elem_of_cons, !elem_of_nil. intros [[|[|]]|[|[|]]]; done. }
  intros Hbatch.
  assert (batch = set_link (default "" (fl_linkToFilingDetails f)) <$> rs) as ->.
  { rewrite !elem_of_cons, !elem_of_nil in Hbatch.
    destruct Hbatch as [[H|[H|[H|[H|[]]]]]|[H|[H|[H|[H|[]]]]]]; try discriminate H;
      by injection H as ->. }
  split; [done|]. exists resp, data, rest, rs. repeat split; try done.
  - intros Hnil. apply fmap_nil_inv in Hnil.
    by apply (accepted_filing_has_records data rs).
  - apply Forall_fmap, Forall_forall. by intros d _.
Qed.

(** X11. Conversely, for a form 4 with an accession number whose first
    fetched filing is accepted by the filter and extracted, the pipeline
    consists of the settle delay, the query, the notification and the
    storage of the relinked records, and it ends normally: whether the
    notification fails or not, the storage is attempted, and no failure of
    either leaves the pipeline. *)
Theorem accepted_filing_fans_out (f : filing) resp data rest rs :
  is_candidate f = true →
  get_data (default "" (fl_accessionNo f)) = Ok resp →
  resp_total_value resp ≠ 0%Z →
  resp_transactions resp = data :: rest →
  officer_trade_filter officer_titles data = Ok true →
  extract data = Ok rs →
  pipeline f
  = ([Sleep 15; GetData (default "" (fl_accessionNo f));
      SignalNotification (set_link (default "" (fl_linkToFilingDetails f)) <$> rs);
      InsertData (set_link (default "" (fl_linkToFilingDetails f)) <$> rs)],
     Ok tt).
Proof.
  unfold pipeline, on_filings, is_candidate, try_except, extract.
  intros -> Hresp Htotal Hdata Hfilter Hrs.
  unfold fetch_insider_trades. cbn. rewrite Hresp. cbn.
  rewrite bool_decide_eq_true_2 by done. cbn. rewrite Hdata. cbn.
  rewrite Hfilter. cbn. rewrite Hrs. cbn. done.
Qed.
End MoreOnStream.

Section Isolation.
Context (sectors_with_ticker market_cap_with_ticker : dict string (list string)).
Context (officer_titles : list string).
Context (get_data : string → result api_response).
Context (notify store notify' store' : list normalized_trade → result unit).

Lemma on_filings_isolation (f : filing) :
  on_filings sectors_with_ticker market_cap_with_ticker officer_titles get_data
    notify store f
  = on_filings sectors_with_ticker market_cap_with_ticker officer_titles get_data
      notify' store' f.
Proof.
  unfold on_filings, try_except. f_equal.
Qed.

Lemma on_each_filing_isolation (filings : list filing) :
  on_each_filing sectors_with_ticker market_cap_with_ticker officer_titles get_data
    notify store filings
  = on_each_filing sectors_with_ticker market_cap_with_ticker officer_titles get_data
      notify' store' filings.
Proof.
  induction filings as [|f filings IH]; [done|].
  cbn [on_each_filing]. by rewrite on_filings_isolation, IH.
Qed.

Lemma receive_loop_isolation (messages : list (list filing)) :
  receive_loop sectors_with_ticker market_cap_with_ticker officer_titles get_data
    notify store messages
  = receive_loop sectors_with_ticker market_cap_with_ticker officer_titles get_data
      notify' store' messages.
Proof.
  induction messages as [|filings messages IH]; [done|].
  cbn [receive_loop]. by rewrite on_each_filing_isolation, IH.
Qed.

Lemma main_loop_isolation (script : list attempt) (m : manager) :
  main_loop sectors_with_ticker market_cap_with_ticker officer_titles get_data
    notify store script m
  = main_loop sectors_with_ticker market_cap_with_ticker officer_titles get_data
      notify' store' script m.
Proof.
  revert m. induction script as [|a script IH]; intros m; [done|].
  cbn [main_loop]. unfold attempt_connection.
  destruct (bool_decide _); [|done].
  destruct (at_connect a) as [|messages]; rewrite ?receive_loop_isolation;
    destruct (handle_exception _ _) as [evs [m'|]]; by rewrite ?IH.
Qed.

(** X12. What the client does, from the first connection to the last event,
    does not depend on what the notification and the storage services
    answer: whether they return or raise, on any batch, the same filings are
    queried, notified and stored, the same delays are slept and the same
    connections are attempted. *)
Theorem service_failures_change_nothing (script : list attempt) :
  main sectors_with_ticker market_cap_with_ticker officer_titles get_data
    notify store script
  = main sectors_with_ticker market_cap_with_ticker officer_titles get_data
      notify' store' script.
Proof. apply main_loop_isolation. Qed.
End Isolation.

Section GivingUp.
Context (sectors_with_ticker market_cap_with_ticker : dict string (list string)).
Context (officer_titles : list string).
Context (get_data : string → result api_response).
Context (signal_notification insert_data_into_table : list normalized_trade → result unit).

Let run := main_loop sectors_with_ticker market_cap_with_ticker officer_titles
             get_data signal_notification insert_data_into_table.

Lemma consecutive_failures_cons (n : nat) (a : attempt) (script : list attempt) :
  consecutive_failures n script → consecutive_failures n (a :: script).
Proof.
  intros (pre & fails & post & -> & Hlen & Hfails). by exists (a :: pre), fails, post.
Qed.

Lemma stopped_after_failures (script : list attempt) (m : manager) :
  Stopped ∈ run script m →
  (∃ fails post, script = fails ++ post
                 ∧ length fails = (max_retries - retry_counter m)%nat
                 ∧ Forall (λ a, at_connect a = ConnectFails) fails)
  ∨ consecutive_failures 9 script.
Proof.
  revert m. induction script as [|a script IH]; intros m; unfold run in *;
    cbn [main_loop]; case_bool_decide as Hlt.
  - by intros ?%elem_of_nil.
  - intros _. left. exists [], []. split; [done|]. split; [simpl; lia|constructor].
  - pose proof (attempt_connection_events sectors_with_ticker market_cap_with_ticker
                  officer_titles get_data signal_notification insert_data_into_table m a)
      as Hev.
    unfold attempt_connection, handle_exception in *.
    destruct (at_connect a) as [|messages] eqn:Ha.
    + assert (∀ p, Stopped ∈ main_loop sectors_with_ticker market_cap_with_ticker
                      officer_titles get_data signal_notification insert_data_into_table
                      script {| retry_counter := S (retry_counter m); ping_task := p |} →
                   (∃ fails post, a :: script = fails ++ post
                      ∧ length fails = (max_retries - retry_counter m)%nat
                      ∧ Forall (λ a, at_connect a = ConnectFails) fails)
                   ∨ consecutive_failures 9 (a :: script)) as Hnext.
      { intros p [(fails & post & -> & Hlen & Hfails)|Hc]%IH.
        - left. exists (a :: fails), post. split; [done|]. cbn [retry_counter] in Hlen.
          split; [simpl; lia|by constructor].
        - right. by apply consecutive_failures_cons. }
      destruct (ping_task m) eqn:Hp, (at_cancelled_escapes a); cbn [fst] in *.
      * rewrite app_nil_r. intros Hin. by destruct Hev.
      * intros [Hin|Hin]%elem_of_app; [by destruct Hev|]. by apply (Hnext false).
      * intros [Hin|Hin]%elem_of_app; [by destruct Hev|]. by apply (Hnext false).
      * intros [Hin|Hin]%elem_of_app; [by destruct Hev|]. by apply (Hnext false).
    + cbn [connected ping_task retry_counter] in *.
      destruct (at_cancelled_escapes a); cbn [fst] in *.
      * rewrite app_nil_r. intros Hin. by destruct Hev.
      * intros [Hin|Hin]%elem_of_app; [by destruct Hev|].
        apply IH in Hin as [(fails & post & -> & Hlen & Hfails)|Hc].
        -- right. exists [a], fails, post. by cbn [retry_counter] in Hlen.
        -- right. by apply consecutive_failures_cons.
  - intros _. left. exists [], (a :: script). split; [done|].
    split; [simpl; lia|constructor].
Qed.

(** X13. The client gives up only after nine connection attempts in a row
    have failed: a run that reaches "Maximum reconnection attempts reached"
    has gone through nine consecutive attempts whose connection was
    refused.  Ten are needed from the start; after a session, whose end is
    itself counted as a failure, nine are enough. *)
Theorem gives_up_only_after_nine_failures (script : list attempt) :
  Stopped ∈ main sectors_with_ticker market_cap_with_ticker officer_titles
              get_data signal_notification insert_data_into_table script →
  consecutive_failures 9 script.
Proof.
  intros [(fails & post & -> & Hlen & Hfails)|Hc]%stopped_after_failures; [|done].
  cbn in Hlen. exists [], (take 9 fails), (drop 9 fails ++ post).
  split; [simpl; by rewrite (app_assoc (take 9 fails)), take_drop|].
  split; [rewrite length_take; lia|by apply Forall_take].
Qed.
End GivingUp.

(** ** The stream client on the sample stream *)

Lemma sample_on_filings_trace :
  (sample_on_filings sample_event).1
  = [Sleep 15; GetData "0001-24-000001";
     SignalNotification [set_link "https://www.sec.gov/f-1" record_single_purchase];
     InsertData [set_link "https://www.sec.gov/f-1" record_single_purchase]].
Proof. by_evaluation. Qed.

Lemma fan_out_only_for_accepted_filings_witness :
  (SignalNotification [set_link "https://www.sec.gov/f-1" record_single_purchase]
     ∈ (sample_on_filings sample_event).1
   ∨ InsertData [set_link "https://www.sec.gov/f-1" record_single_purchase]
       ∈ (sample_on_filings sample_event).1)
  ∧ is_candidate sample_event = true
  ∧ ∃ resp data rest rs,
      sample_get_data (default "" (fl_accessionNo sample_event)) = Ok resp
      ∧ resp_total_value resp ≠ 0%Z
      ∧ resp_transactions resp = data :: rest
      ∧ officer_trade_filter sample_officer_titles data = Ok true
      ∧ sample_extract data = Ok rs
      ∧ [set_link "https://www.sec.gov/f-1" record_single_purchase]
        = set_link (default "" (fl_linkToFilingDetails sample_event)) <$> rs
      ∧ [set_link "https://www.sec.gov/f-1" record_single_purchase] ≠ []
      ∧ Forall (λ d, link d = Some (default "" (fl_linkToFilingDetails sample_event)))
          [set_link "https://www.sec.gov/f-1" record_single_purchase]
      ∧ (sample_on_filings sample_event).1
        = [Sleep 15; GetData (default "" (fl_accessionNo sample_event));
           SignalNotification [set_link "https://www.sec.gov/f-1" record_single_purchase];
           InsertData [set_link "https://www.sec.gov/f-1" record_single_purchase]].
Proof.
  assert (SignalNotification [set_link "https://www.sec.gov/f-1" record_single_purchase]
            ∈ (sample_on_filings sample_event).1) as Hin.
  { rewrite sample_on_filings_trace. right; right; left. }
  split; [by left|].
  apply (fan_out_only_for_accepted_filings sample_sectors sample_market_caps
           sample_officer_titles sample_get_data sample_service sample_service
           sample_event).
  by left.
Defined.

Lemma accepted_filing_fans_out_witness :
  is_candidate sample_event = true
  ∧ sample_get_data (default "" (fl_accessionNo sample_event))
    = Ok {| resp_total_value := 1; resp_transactions := [filing_single_purchase] |}
  ∧ officer_trade_filter sample_officer_titles filing_single_purchase = Ok true
  ∧ sample_extract filing_single_purchase = Ok [record_single_purchase]
  ∧ sample_on_filings sample_event
    = ([Sleep 15; GetData (default "" (fl_accessionNo sample_event));
        SignalNotification
          (set_link (default "" (fl_linkToFilingDetails sample_event))
             <$> [record_single_purchase]);
        InsertData
          (set_link (default "" (fl_linkToFilingDetails sample_event))
             <$> [record_single_purchase])],
       Ok tt).
Proof.
  split; [reflexivity|]. split; [reflexivity|]. split; [reflexivity|].
  split; [exact extract_single_purchase|].
  apply (accepted_filing_fans_out sample_sectors sample_market_caps sample_officer_titles
           sample_get_data sample_service sample_service sample_event
           {| resp_total_value := 1; resp_transactions := [filing_single_purchase] |}
           filing_single_purchase [] [record_single_purchase]).
  - reflexivity.
  - reflexivity.
  - simpl. lia.
  - reflexivity.
  - reflexivity.
  - exact extract_single_purchase.
Defined.

Lemma gives_up_only_after_nine_failures_witness :
  Stopped ∈ sample_main script_session_then_failures
  ∧ consecutive_failures 9 script_session_then_failures.
Proof.
  assert (Stopped ∈ sample_main script_session_then_failures) as Hin by by_evaluation.
  split; [exact Hin|].
  apply (gives_up_only_after_nine_failures sample_sectors sample_market_caps
           sample_officer_titles sample_get_data sample_service sample_service
           script_session_then_failures).
  exact Hin.
Defined.

(** ** The categories of a ticker and the keys of the options *)

Lemma first_key_holding_listing (ticker : string) (table : dict string (list string)) :
  first_listing ticker (first_key_holding ticker table) table
  ∨ (first_key_holding ticker table = "N/A" ∧ Forall (λ item, ticker ∉ item.2) table).
Proof.
  induction table as [|[key tickers] table IH]; [by right|].
  cbn [first_key_holding]. case_bool_decide as Hin.
  - left. by exists [], tickers, table.
  - destruct IH as [(pre & tickers' & post & Heq & Hin' & Hpre)|[-> Hall]].
    + left. exists ((key, tickers) :: pre), tickers', post.
      split; [simpl; f_equal; exact Heq|]. split; [done|]. by constructor.
    + right. split; [done|]. by constructor.
Qed.

(** X14. [get_sector] and [get_market_cap] return the key of the first entry
    of their table that lists the ticker, and "N/A" when no entry lists it. *)
Theorem categories_of_first_listing
    (sectors_with_ticker market_cap_with_ticker : dict string (list string))
    (ticker : string) :
  (first_listing ticker (get_sector sectors_with_ticker ticker) sectors_with_ticker
   ∨ (get_sector sectors_with_ticker ticker = "N/A"
      ∧ Forall (λ item, ticker ∉ item.2) sectors_with_ticker))
  ∧ (first_listing ticker (get_market_cap market_cap_with_ticker ticker)
       market_cap_with_ticker
     ∨ (get_market_cap market_cap_with_ticker ticker = "N/A"
        ∧ Forall (λ item, ticker ∉ item.2) market_cap_with_ticker)).
Proof. split; apply first_key_holding_listing. Qed.

Lemma first_key_named_Some (name : string) (options : dict Z string) (key : Z) :
  first_key_named name options = Some key → (key, name) ∈ options.
Proof.
  induction options as [|[k n] options IH]; [done|].
  cbn [first_key_named]. case_bool_decide as Hn.
  - intros [= ->]. subst n. left.
  - intros H. right. by apply IH.
Qed.

Lemma first_key_named_None (name : string) (options : dict Z string) :
  first_key_named name options = None ↔ name ∉ options.*2.
Proof.
  induction options as [|[k n] options IH]; csimpl.
  - split; [intros _; apply not_elem_of_nil|done].
  - case_bool_decide as Hn; rewrite not_elem_of_cons.
    + split; [done|]. by intros [? _].
    + rewrite IH. split; [by split|by intros [_ ?]].
Qed.

Lemma first_key_named_unique (name : string) (options : dict Z string) (key : Z) :
  NoDup options.*2 → (key, name) ∈ options → first_key_named name options = Some key.
Proof.
  induction options as [|[k n] options IH]; intros Hnd Hin.
  { by apply elem_of_nil in Hin. }
  csimpl in Hnd. apply NoDup_cons in Hnd as [Hn Hnd].
  cbn [first_key_named]. apply elem_of_cons in Hin as [[= -> ->]|Hin].
  - by rewrite bool_decide_eq_true_2.
  - rewrite bool_decide_eq_false_2; [by apply IH|].
    intros ->. apply Hn. apply list_elem_of_fmap. by exists (key, name).
Qed.

(** X15. On a table of options whose names are distinct, [get_sector_key]
    and [get_market_cap_key] invert the table: they return the key under
    which the table holds the name, and [None] exactly for the names that the
    table does not hold. *)
Theorem option_keys_invert_options (options : dict Z string) (name : string) (key : Z) :
  NoDup options.*2 →
  (get_sector_key options name = Some key ↔ (key, name) ∈ options)
  ∧ (get_market_cap_key options name = Some key ↔ (key, name) ∈ options)
  ∧ (get_sector_key options name = None ↔ name ∉ options.*2)
  ∧ (get_market_cap_key options name = None ↔ name ∉ options.*2).
Proof.
  intros Hnd. unfold get_sector_key, get_market_cap_key.
  assert (first_key_named name options = Some key ↔ (key, name) ∈ options) as Hiff.
  { split; [apply first_key_named_Some|by apply first_key_named_unique]. }
  repeat split; try apply Hiff; apply first_key_named_None.
Qed.

(** ** The rows of the trade tables *)

Section Rows.
Context (PURCHASE_TABLE SALES_TABLE : string).

Let row_of := row_of_item PURCHASE_TABLE SALES_TABLE.

Lemma lower_p_not_s (s : string) : lower s = "p" → lower s ≠ "s".
Proof. by intros ->. Qed.

(** X16. The row of an item goes to the purchase table exactly when its
    transaction type is "p" or "P", and to the sales table otherwise,
    whatever the type.  The rows of the purchase table carry the eighteen
    columns of a trade followed by the three returns of the item; the rows of
    the sales table carry the eighteen columns only: the deletions of the
    returns from a sale never find a column to delete. *)
Theorem row_of_item_columns (data : normalized_trade) :
  (lower (transaction_type data) = "p" ↔ transaction_type data ∈ ["p"; "P"])
  ∧ if bool_decide (lower (transaction_type data) = "p") then
      (row_of data).1 = PURCHASE_TABLE
      ∧ (row_of data).2.*1 = trade_columns ++ return_columns
      ∧ dict_lookup "one_week_return" (row_of data).2
        = Some (value_of_num (one_week_return data))
      ∧ dict_lookup "one_month_return" (row_of data).2
        = Some (value_of_num (one_month_return data))
      ∧ dict_lookup "six_months_return" (row_of data).2
        = Some (value_of_num (six_months_return data))
    else
      (row_of data).1 = SALES_TABLE ∧ (row_of data).2.*1 = trade_columns.
Proof.
  split.
  { rewrite !elem_of_cons, elem_of_nil. split.
    - destruct (transaction_type data) as [|c [|c' s]]; [done| |].
      + cbn [lower]. intros [= Hc]. revert Hc.
        destruct c as [[] [] [] [] [] [] [] []]; vm_compute; intros [=]; tauto.
      + cbn [lower]. intros [=].
    - intros [->|[->|[]]]; reflexivity. }
  unfold row_of, row_of_item, get_database_table.
  destruct (bool_decide (lower (transaction_type data) = "p")) eqn:Hp.
  - apply bool_decide_eq_true in Hp.
    rewrite (bool_decide_eq_false_2 _ (lower_p_not_s _ Hp)). by cbn.
  - destruct (bool_decide (lower (transaction_type data) = "s")); by cbn.
Qed.
End Rows.

Section Insertions.
Context (sectors_with_ticker market_cap_with_ticker : dict string (list string)).
Context (PURCHASE_TABLE SALES_TABLE : string).
Context (execute : string → dict string value → result unit).

Let extract := extract_insider_trades_info_single sectors_with_ticker market_cap_with_ticker.
Let row_of := row_of_item PURCHASE_TABLE SALES_TABLE.
Let insert := insert_data_into_table PURCHASE_TABLE SALES_TABLE execute.

Lemma insert_data_rows (items : list normalized_trade) (insertion : string * dict string value) :
  insertion ∈ (insert items).1 → ∃ data, data ∈ items ∧ insertion = row_of data.
Proof.
  unfold insert, row_of. induction items as [|data items IH]; cbn [insert_data_into_table].
  { by intros ?%elem_of_nil. }
  destruct (row_of_item _ _ data) as [TABLE row] eqn:Hrow.
  destruct (execute TABLE row) as [[]|e].
  - destruct (insert_data_into_table _ _ _ items) as [inserted outcome]. cbn [fst] in *.
    intros [->|Hin]%elem_of_cons.
    + exists data. split; [left|done].
    + destruct (IH Hin) as (data' & Hdata' & ->). exists data'. split; [by right|done].
  - cbn [fst]. intros ->%list_elem_of_singleton. exists data. split; [left|done].
Qed.

(** X17. Every row that [insert_data_into_table] sends for the records of
    the extractor, relinked as the stream client does, is the row of one of
    these records: a purchase goes to the purchase table with the three
    returns null, a sale to the sales table without them; the column [q], put
    together again from the two names, is the [q] of the record, and the link
    is the link of the stream event. *)
Theorem rows_of_extracted_records (doc : insider_trade) rs (lnk : string)
    (insertion : string * dict string value) :
  extract doc = Ok rs →
  insertion ∈ (insert (set_link lnk <$> rs)).1 →
  ∃ r, r ∈ rs
       ∧ insertion.1
         = (if decide (transaction_type r = "P") then PURCHASE_TABLE else SALES_TABLE)
       ∧ insertion.2.*1
         = trade_columns ++ (if decide (transaction_type r = "P") then return_columns else [])
       ∧ dict_lookup "q" insertion.2 = Some (Str (q r))
       ∧ dict_lookup "transaction_type" insertion.2 = Some (Str (transaction_type r))
       ∧ dict_lookup "link" insertion.2 = Some (Str lnk)
       ∧ (transaction_type r = "P" →
            Forall (λ column, dict_lookup column insertion.2 = Some Null) return_columns).
Proof.
  intros Hrs (data & Hdata & ->)%insert_data_rows.
  apply list_elem_of_fmap in Hdata as (r & -> & Hr). exists r. split; [done|].
  destruct (extract_identifies _ _ doc rs r Hrs Hr)
    as (iss & ro & _ & _ & _ & _ & _ & _ & _ & _ & _ & _ & Hq & _ & _ & _ & Hw & Hm & Hs).
  unfold row_of, row_of_item, get_database_table.
  cbn [set_link transaction_type ceo_name company_name link one_week_return
       one_month_return six_months_return].
  rewrite Hq, Hw, Hm, Hs.
  destruct (record_type_qualifying _ _ doc rs r Hrs Hr) as [-> | ->].
  - rewrite decide_True by done. repeat split; try reflexivity.
    intros _. repeat constructor.
  - rewrite decide_False by done. repeat split; try reflexivity. intros [=].
Qed.
End Insertions.

(** ** The recipients of a notification *)

Lemma add_email_opted_in (users : list contact) (res res' : recipients) (user : contact) :
  user ∈ users → opted_in users res → add_email res user = Ok res' → opted_in users res'.
Proof.
  intros Huser (Hemails & Hphones & He & Hp). unfold add_email.
  intros (flag & Hflag%getitem_Ok & H)%bind_Ok. destruct flag; [|by injection H as <-].
  apply bind_Ok in H as (email & Hemail%getitem_Ok & H). injection H as <-.
  case_bool_decide as Hin; [done|].
  split; [|split; [done|split; [|done]]]; cbn [emails].
  - apply NoDup_app. split; [done|]. split; [|apply NoDup_singleton].
    intros e He' ->%list_elem_of_singleton. done.
  - intros e [He'| ->%list_elem_of_singleton]%elem_of_app; [by apply He|].
    by exists user.
Qed.

Lemma add_phone_opted_in (users : list contact) (res res' : recipients) (user : contact) :
  user ∈ users → opted_in users res → add_phone res user = Ok res' → opted_in users res'.
Proof.
  intros Huser (Hemails & Hphones & He & Hp). unfold add_phone.
  intros (flag & Hflag%getitem_Ok & H)%bind_Ok. destruct flag; [|by injection H as <-].
  apply bind_Ok in H as (phone & Hphone%getitem_Ok & H). injection H as <-.
  case_bool_decide as Hin; [done|].
  split; [done|split; [|split; [done|]]]; cbn [phones].
  - apply NoDup_app. split; [done|]. split; [|apply NoDup_singleton].
    intros p Hp' ->%list_elem_of_singleton. done.
  - intros p [Hp'| ->%list_elem_of_singleton]%elem_of_app; [by apply Hp|].
    by exists user.
Qed.

Lemma add_contacts_opted_in (users : list contact) (query : list contact) :
  ∀ res, (∀ user, user ∈ query → user ∈ users) → opted_in users res →
         opted_in users (add_contacts res query).
Proof.
  induction query as [|user query IH]; intros res Hsub Hres; [done|].
  cbn [add_contacts].
  destruct (add_email res user) as [res1|e] eqn:H1; [|done].
  assert (opted_in users res1) as Hres1.
  { eapply add_email_opted_in; [|done|done]. apply Hsub. left. }
  destruct (add_phone res1 user) as [res2|e] eqn:H2; [|done].
  apply IH; [intros u Hu; apply Hsub; by right|].
  eapply add_phone_opted_in; [|done|done]. apply Hsub. left.
Qed.

Lemma add_query_opted_in (users : list contact) (query : result (list contact))
    (res : recipients) :
  (∀ us user, query = Ok us → user ∈ us → user ∈ users) → opted_in users res →
  opted_in users (add_query res query).
Proof.
  intros Hsub Hres. destruct query as [us|e]; [|done].
  apply add_contacts_opted_in; [|done]. intros user. by apply Hsub.
Qed.

Lemma elem_of_concat {A} (x : A) (ls : list (list A)) :
  x ∈ concat ls ↔ ∃ l, x ∈ l ∧ l ∈ ls.
Proof.
  induction ls as [|l ls IH]; simpl.
  - split; [by intros ?%elem_of_nil|by intros (l & _ & ?%elem_of_nil)].
  - rewrite elem_of_app, IH. split.
    + intros [Hx|(l' & Hx & Hl')]; [exists l; split; [done|left]|].
      exists l'. split; [done|by right].
    + intros (l' & Hx & [->|Hl']%elem_of_cons); [by left|]. right. by exists l'.
Qed.

Lemma elem_of_queried (queries : list (result (list contact))) (user : contact) :
  user ∈ queried queries ↔ ∃ us, Ok us ∈ queries ∧ user ∈ us.
Proof.
  unfold queried. rewrite elem_of_concat. split.
  - intros (us & Huser & Hus). apply list_elem_of_omap in Hus as ([us'|e] & Hq & [= <-]).
    by exists us'.
  - intros (us & Hq & Huser). exists us. split; [done|].
    apply list_elem_of_omap. by exists (Ok us).
Qed.

(** X18. [get_users_for_notification] never raises, whatever its queries
    answer, and it returns addresses that are pairwise distinct and numbers
    that are pairwise distinct; each address belongs to a user, of a query
    that returned, who asked for notifications by email, and each number to
    one who asked for notifications by text. *)
Theorem recipients_distinct_and_opted_in
    (watch_list_users activity_users custom_users : result (list contact)) :
  opted_in (queried [watch_list_users; activity_users; custom_users])
    (get_users_for_notification watch_list_users activity_users custom_users).
Proof.
  unfold get_users_for_notification.
  repeat apply add_query_opted_in.
  - intros us user -> Hu. apply elem_of_queried. exists us. split; [|done].
    right; right; left.
  - intros us user -> Hu. apply elem_of_queried. exists us. split; [|done].
    right; left.
  - intros us user -> Hu. apply elem_of_queried. exists us. split; [|done]. left.
  - split; [apply NoDup_nil_2|]. split; [apply NoDup_nil_2|].
    split; by intros ? ?%elem_of_nil.
Qed.

Lemma add_email_readable (res : recipients) (user : contact) :
  readable user = true →
  ∃ res1, add_email res user = Ok res1 ∧ phones res1 = phones res
          ∧ (∀ email, email ∈ emails res → email ∈ emails res1)
          ∧ (∀ email, ct_email_notification user = Some true →
                      ct_email user = Some email → email ∈ emails res1).
Proof.
  unfold readable. intros [[[Hflag Hemail]%andb_true_iff _]%andb_true_iff _]%andb_true_iff.
  apply is_some_true in Hflag as [by_email Hflag], Hemail as [email Hemail].
  unfold add_email. rewrite Hflag, Hemail. cbn.
  destruct by_email; [|by exists res]. case_bool_decide as Hin.
  - exists res. repeat split; try done. by intros e _ [= <-].
  - eexists. split; [done|]. cbn [emails phones]. split; [done|].
    split; intros e; rewrite elem_of_app; [by left|]. intros _ [= <-]. right. left.
Qed.

Lemma add_phone_readable (res : recipients) (user : contact) :
  readable user = true →
  ∃ res1, add_phone res user = Ok res1 ∧ emails res1 = emails res
          ∧ (∀ phone, phone ∈ phones res → phone ∈ phones res1)
          ∧ (∀ phone, ct_text_notification user = Some true →
                      ct_phone user = Some phone → phone ∈ phones res1).
Proof.
  unfold readable. intros [[_ Hflag]%andb_true_iff Hphone]%andb_true_iff.
  apply is_some_true in Hflag as [by_text Hflag], Hphone as [phone Hphone].
  unfold add_phone. rewrite Hflag, Hphone. cbn.
  destruct by_text; [|by exists res]. case_bool_decide as Hin.
  - exists res. repeat split; try done. by intros p _ [= <-].
  - eexists. split; [done|]. cbn [emails phones]. split; [done|].
    split; intros p; rewrite elem_of_app; [by left|]. intros _ [= <-]. right. left.
Qed.

(** The addresses and the numbers that the users of a query add when each of
    their fields can be read. *)
Lemma add_contacts_complete (query : list contact) :
  ∀ res, Forall (λ user, readable user = true) query →
    (∀ email, (email ∈ emails res
               ∨ ∃ user, user ∈ query ∧ ct_email_notification user = Some true
                         ∧ ct_email user = Some email) →
              email ∈ emails (add_contacts res query))
    ∧ (∀ phone, (phone ∈ phones res
                 ∨ ∃ user, user ∈ query ∧ ct_text_notification user = Some true
                           ∧ ct_phone user = Some phone) →
                phone ∈ phones (add_contacts res query)).
Proof.
  induction query as [|user query IH]; intros res Hall.
  { split; intros x [Hx|(u & Hu%elem_of_nil & _)]; done. }
  apply Forall_cons in Hall as [Huser Hall]. cbn [add_contacts].
  destruct (add_email_readable res user Huser) as (res1 & -> & Hp1 & He1 & Hnew1).
  destruct (add_phone_readable res1 user Huser) as (res2 & -> & He2 & Hp2 & Hnew2).
  destruct (IH res2 Hall) as [IHe IHp]. split.
  - intros e [He|(u & [->|Hu]%elem_of_cons & Hf & Hu')]; apply IHe.
    + left. rewrite He2. by apply He1.
    + left. rewrite He2. by apply Hnew1.
    + right. by exists u.
  - intros p [Hp|(u & [->|Hu]%elem_of_cons & Hf & Hu')]; apply IHp.
    + left. apply Hp2. by rewrite Hp1.
    + left. by apply Hnew2.
    + right. by exists u.
Qed.

Lemma add_query_complete (query : result (list contact)) (res : recipients) :
  (∀ us, query = Ok us → Forall (λ user, readable user = true) us) →
  (∀ email, (email ∈ emails res
             ∨ ∃ us user, query = Ok us ∧ user ∈ us
                          ∧ ct_email_notification user = Some true
                          ∧ ct_email user = Some email) →
            email ∈ emails (add_query res query))
  ∧ (∀ phone, (phone ∈ phones res
               ∨ ∃ us user, query = Ok us ∧ user ∈ us
                            ∧ ct_text_notification user = Some true
                            ∧ ct_phone user = Some phone) →
              phone ∈ phones (add_query res query)).
Proof.
  intros Hall. destruct query as [us|e]; cbn [add_query].
  - destruct (add_contacts_complete us res (Hall us eq_refl)) as [He Hp].
    split; intros x [Hx|(us' & u & [= <-] & Hu)]; (apply He || apply Hp); eauto.
  - split; intros x [Hx|(us' & u & [=] & _)]; done.
Qed.

(** X19. When every field of every user of the queries that returned can be
    read, no user is lost: the address of each user who asked for
    notifications by email is among the addresses returned, and the number
    of each user who asked for notifications by text is among the numbers. *)
Theorem recipients_complete
    (watch_list_users activity_users custom_users : result (list contact))
    (user : contact) :
  Forall (λ user, readable user = true)
    (queried [watch_list_users; activity_users; custom_users]) →
  user ∈ queried [watch_list_users; activity_users; custom_users] →
  (∀ email, ct_email_notification user = Some true → ct_email user = Some email →
            email ∈ emails (get_users_for_notification watch_list_users activity_users
                              custom_users))
  ∧ (∀ phone, ct_text_notification user = Some true → ct_phone user = Some phone →
              phone ∈ phones (get_users_for_notification watch_list_users activity_users
                                custom_users)).
Proof.
  intros Hall Huser.
  assert (∀ query us, query ∈ [watch_list_users; activity_users; custom_users] →
                      query = Ok us → Forall (λ user, readable user = true) us) as Hread.
  { intros query us Hq ->. apply Forall_forall. intros u Hu.
    apply (proj1 (Forall_forall _ _) Hall). apply elem_of_queried. by exists us. }
  unfold get_users_for_notification.
  set (res0 := {| emails := []; phones := [] |}).
  destruct (add_query_complete watch_list_users res0) as [He1 Hp1].
  { intros us. apply Hread. left. }
  destruct (add_query_complete activity_users (add_query res0 watch_list_users)) as [He2 Hp2].
  { intros us. apply Hread. right; left. }
  destruct (add_query_complete custom_users
              (add_query (add_query res0 watch_list_users) activity_users)) as [He3 Hp3].
  { intros us. apply Hread. right; right; left. }
  apply elem_of_queried in Huser as (us & Hq & Hu).
  rewrite !elem_of_cons, elem_of_nil in Hq.
  destruct Hq as [<-|[<-|[<-|[]]]]; split; intros x Hflag Hx.
  - apply He3. left. apply He2. left. apply He1. right. by exists us, user.
  - apply Hp3. left. apply Hp2. left. apply Hp1. right. by exists us, user.
  - apply He3. left. apply He2. right. by exists us, user.
  - apply Hp3. left. apply Hp2. right. by exists us, user.
  - apply He3. right. by exists us, user.
  - apply Hp3. right. by exists us, user.
Qed.

(** ** The options, the rows and the recipients on sample data *)

Lemma option_keys_invert_options_witness :
  NoDup sample_sector_options.*2
  ∧ (get_sector_key sample_sector_options "Energy" = Some 3%Z
     ↔ (3%Z, "Energy") ∈ sample_sector_options)
  ∧ (get_market_cap_key sample_sector_options "Energy" = Some 3%Z
     ↔ (3%Z, "Energy") ∈ sample_sector_options)
  ∧ (get_sector_key sample_sector_options "Energy" = None
     ↔ "Energy" ∉ sample_sector_options.*2)
  ∧ (get_market_cap_key sample_sector_options "Energy" = None
     ↔ "Energy" ∉ sample_sector_options.*2).
Proof.
  assert (NoDup sample_sector_options.*2) as Hnd by by_evaluation.
  split; [exact Hnd|].
  apply (option_keys_invert_options sample_sector_options "Energy" 3). exact Hnd.
Defined.

Lemma sample_sale_row_inserted :
  sample_sale_row
    ∈ (sample_insert (set_link "https://www.sec.gov/f-1"
                        <$> [record_of_purchase; record_of_sale])).1.
Proof. by_evaluation. Qed.

Lemma rows_of_extracted_records_witness :
  sample_extract filing_purchase_and_sale = Ok [record_of_purchase; record_of_sale]
  ∧ sample_sale_row
      ∈ (sample_insert (set_link "https://www.sec.gov/f-1"
                          <$> [record_of_purchase; record_of_sale])).1
  ∧ ∃ r, r ∈ [record_of_purchase; record_of_sale]
         ∧ sample_sale_row.1
           = (if decide (transaction_type r = "P") then "purchase_trades"
              else "sales_trades")
         ∧ sample_sale_row.2.*1
           = trade_columns
             ++ (if decide (transaction_type r = "P") then return_columns else [])
         ∧ dict_lookup "q" sample_sale_row.2 = Some (Str (q r))
         ∧ dict_lookup "transaction_type" sample_sale_row.2
           = Some (Str (transaction_type r))
         ∧ dict_lookup "link" sample_sale_row.2 = Some (Str "https://www.sec.gov/f-1")
         ∧ (transaction_type r = "P" →
              Forall (λ column, dict_lookup column sample_sale_row.2 = Some Null)
                return_columns).
Proof.
  split; [exact extract_purchase_and_sale|]. split; [exact sample_sale_row_inserted|].
  apply (rows_of_extracted_records sample_sectors sample_market_caps
           "purchase_trades" "sales_trades" sample_execute filing_purchase_and_sale
           [record_of_purchase; record_of_sale] "https://www.sec.gov/f-1" sample_sale_row).
  - exact extract_purchase_and_sale.
  - exact sample_sale_row_inserted.
Defined.

Lemma recipients_complete_witness :
  Forall (λ user, readable user = true)
    (queried [sample_watch_list; sample_activity; sample_custom])
  ∧ sample_contact "bob@example.com" "+1666" false true
      ∈ queried [sample_watch_list; sample_activity; sample_custom]
  ∧ (∀ email,
       ct_email_notification (sample_contact "bob@example.com" "+1666" false true)
       = Some true →
       ct_email (sample_contact "bob@example.com" "+1666" false true) = Some email →
       email ∈ emails (get_users_for_notification sample_watch_list sample_activity
                         sample_custom))
  ∧ (∀ phone,
       ct_text_notification (sample_contact "bob@example.com" "+1666" false true)
       = Some true →
       ct_phone (sample_contact "bob@example.com" "+1666" false true) = Some phone →
       phone ∈ phones (get_users_for_notification sample_watch_list sample_activity
                         sample_custom)).
Proof.
  assert (Forall (λ user, readable user = true)
            (queried [sample_watch_list; sample_activity; sample_custom])) as Hall
    by by_evaluation.
  assert (sample_contact "bob@example.com" "+1666" false true
            ∈ queried [sample_watch_list; sample_activity; sample_custom]) as Hin
    by by_evaluation.
  split; [exact Hall|]. split; [exact Hin|].
  apply (recipients_complete sample_watch_list sample_activity sample_custom
           (sample_contact "bob@example.com" "+1666" false true)).
  - exact Hall.
  - exact Hin.
Defined.

(** The recipients of the sample queries: the address of the first user is
    kept once, and the failure of the third query loses nothing of the two
    others. *)
Lemma sample_recipients :
  get_users_for_notification sample_watch_list sample_activity sample_custom
  = {| emails := ["ann@example.com"]; phones := ["+1666"; "+1555"] |}.
Proof. reflexivity. Qed.

(** ** The keep-alive task *)

Lemma ping_round_events_open (r : ping_round) :
  CloseConnection ∉ (ping_round_events r).1.
Proof.
  unfold ping_round_events.
  destruct (pr_ping r), (pr_pong r), (pr_sleep r); cbn [fst];
    rewrite ?not_elem_of_cons; repeat split; try done; apply not_elem_of_nil.
Qed.

Lemma split_at_close (evs pre post tail : list ping_event) :
  CloseConnection ∉ evs → evs ++ tail = pre ++ CloseConnection :: post →
  ∃ pre', pre = evs ++ pre' ∧ tail = pre' ++ CloseConnection :: post.
Proof.
  revert pre. induction evs as [|ev evs IH]; intros pre Hev Heq.
  - by exists pre.
  - apply not_elem_of_cons in Hev as [Hne Hev]. destruct pre as [|ev' pre].
    + injection Heq as -> _. done.
    + injection Heq as <- Heq. destruct (IH pre Hev Heq) as (pre' & -> & ->).
      by exists pre'.
Qed.

(** X20. [send_ping] closes the connection at most once, and as the last
    thing it does: after a ping, a wait for the pong or a sleep has raised an
    exception, and after nothing else.  No ping follows the closing, and an
    exception that the handler does not catch leaves the task without
    closing the connection. *)
Theorem keep_alive_closes_last (rounds : list ping_round) :
  (∀ pre post, (send_ping rounds).1 = pre ++ CloseConnection :: post →
               post = [] ∧ (CloseConnection ∉ pre) ∧ (send_ping rounds).2 = PingClosed)
  ∧ ((send_ping rounds).2 = PingClosed
     ↔ ∃ good bad rest,
         rounds = good ++ bad :: rest
         ∧ Forall (λ r, (ping_round_events r).2 = None) good
         ∧ (ping_round_events bad).2 = Some RaisesException)
  ∧ ((send_ping rounds).2 = PingClosed → CloseConnection ∈ (send_ping rounds).1).
Proof.
  induction rounds as [|r rounds (IH1 & IH2 & IH3)].
  { split; [|split].
    - intros pre post Heq. by destruct pre.
    - split; [done|]. intros (good & bad & rest & Heq & _). by destruct good.
    - done. }
  cbn [send_ping]. pose proof (ping_round_events_open r) as Hopen.
  destruct (ping_round_events r) as [evs [[| |]|]] eqn:Hr; cbn [fst snd] in *.
  - split; [|split]; [|split; [done|]|done].
    + intros pre post Heq. exfalso. apply Hopen. rewrite Heq.
      apply elem_of_app. right. left.
    + intros (good & bad & rest & Heq & Hgood & Hbad).
      destruct good as [|g good]; simpl in Heq.
      * injection Heq as <- <-. rewrite Hr in Hbad. discriminate Hbad.
      * injection Heq as <- ->. apply Forall_cons in Hgood as [Hg _].
        rewrite Hr in Hg. discriminate Hg.
  - split; [|split].
    + intros pre post Heq.
      apply split_at_close in Heq as (pre' & -> & Heq); [|done].
      destruct pre' as [|? [|? ?]]; simplify_eq/=.
      split; [done|]. split; [|done]. by rewrite app_nil_r.
    + split; [|done]. intros _. exists [], r, rounds. split; [done|].
      split; [constructor|by rewrite Hr].
    + intros _. apply elem_of_app. right. left.
  - split; [|split]; [|split; [done|]|done].
    + intros pre post Heq. exfalso. apply Hopen. rewrite Heq.
      apply elem_of_app. right. left.
    + intros (good & bad & rest & Heq & Hgood & Hbad).
      destruct good as [|g good]; simpl in Heq.
      * injection Heq as <- <-. rewrite Hr in Hbad. discriminate Hbad.
      * injection Heq as <- ->. apply Forall_cons in Hgood as [Hg _].
        rewrite Hr in Hg. discriminate Hg.
  - destruct (send_ping rounds) as [trace e]. cbn [fst snd] in *. split; [|split].
    + intros pre post Heq.
      apply split_at_close in Heq as (pre' & -> & Heq); [|done].
      destruct (IH1 pre' post Heq) as (-> & Hpre' & ->).
      split; [done|]. split; [|done]. rewrite not_elem_of_app. done.
    + rewrite IH2. split.
      * intros (good & bad & rest & -> & Hgood & Hbad).
        exists (r :: good), bad, rest. split; [done|]. split; [|done].
        constructor; [by rewrite Hr|done].
      * intros (good & bad & rest & Heq & Hgood & Hbad).
        destruct good as [|g good]; simpl in Heq.
        -- injection Heq as <- <-. rewrite Hr in Hbad. discriminate Hbad.
        -- injection Heq as <- ->. apply Forall_cons in Hgood as [_ Hgood].
           by exists good, bad, rest.
    + intros He. apply elem_of_app. right. by apply IH3.
Qed.

(** The sample rounds: the third wait times out, the connection is closed
    and the fourth round never starts. *)
Lemma sample_rounds_trace :
  send_ping sample_rounds
  = ([Ping; WaitPong 5; PingSleep 30; Ping; WaitPong 5; PingSleep 30;
      Ping; WaitPong 5; CloseConnection], PingClosed).
Proof. reflexivity. Qed.
